(** * nanobank: accounts, transfers and scheduled payments

    A shallow embedding of [account/models.py], [transfer/models.py],
    [transfer/managers.py], [transfer/exceptions.py] and [transfer/tasks.py].

    The relational store is an explicit [Database] value; Python model
    instances are separate values that may be stale with respect to the
    store.  Every method is a computation in a state-and-exception monad
    [M]; [transaction.atomic] restores the store on an exception.

    Decimal amounts are exact, and the methods only add, subtract and
    compare them: [Decimal] is [Z], one unit standing for the same fixed
    amount everywhere.  The timestamps [created_at] and [updated_at] are
    not read by any method and are left out; [on_date] and the clock are
    integers. *)

From stdpp Require Import base decidable option list gmap.
From Stdlib Require Import ZArith Lia.

Abbreviation Decimal := Z (only parsing).

(** ** transfer/exceptions.py, and the ORM errors the methods can meet *)

Inductive Exception :=
  | NegativeAmountException
  | InsufficientBalance
  | DeleteEntityException
  | IntegrityError      (* django.db.IntegrityError: dangling foreign key *)
  | DoesNotExist        (* Model.DoesNotExist: related row not found *)
  | DatabaseError.      (* save(update_fields=...) affected no row *)

#[global] Instance Exception_eq_dec : EqDecision Exception.
Proof. solve_decision. Defined.

(** ** Tables *)

Module AccountRow.
Record t := mk {
  number : nat;
  owner : nat;
  balance : Decimal;
  reserved_amount : Decimal }.

Definition set_balance (f : Decimal → Decimal) (r : t) : t :=
  mk (number r) (owner r) (f (balance r)) (reserved_amount r).
Definition set_reserved_amount (f : Decimal → Decimal) (r : t) : t :=
  mk (number r) (owner r) (balance r) (f (reserved_amount r)).
End AccountRow.

Module TransferRow.
Record t := mk {
  pk : nat;
  from_account_id : nat;
  to_account_id : nat;
  amount : Decimal }.
End TransferRow.

(** ScheduledPayment.Status *)
Inductive Status := PENDING | DONE | CANCELED | FAILED.

#[global] Instance Status_eq_dec : EqDecision Status.
Proof. solve_decision. Defined.

Module ScheduledPaymentRow.
Record t := mk {
  pk : nat;
  from_account_id : nat;
  to_account_id : nat;
  amount : Decimal;
  status : Status;
  transfer_id : option nat;
  on_date : Z }.

Definition set_status (s : Status) (r : t) : t :=
  mk (pk r) (from_account_id r) (to_account_id r) (amount r) s
     (transfer_id r) (on_date r).
Definition set_transfer_id (x : option nat) (r : t) : t :=
  mk (pk r) (from_account_id r) (to_account_id r) (amount r) (status r)
     x (on_date r).
End ScheduledPaymentRow.

(** The store: the three tables and the two auto-increment sequences.
    Accounts are keyed by primary key; transfers and scheduled payments
    are kept in insertion order, which is primary-key order. *)
Record Database := mkDatabase {
  account_account : gmap nat AccountRow.t;
  transfer_transfer : list TransferRow.t;
  transfer_scheduledpayment : list ScheduledPaymentRow.t;
  transfer_seq : nat;
  scheduledpayment_seq : nat }.

Definition set_account_account
    (f : gmap nat AccountRow.t → gmap nat AccountRow.t) (db : Database) :=
  mkDatabase (f (account_account db)) (transfer_transfer db)
             (transfer_scheduledpayment db) (transfer_seq db)
             (scheduledpayment_seq db).

Definition set_transfer_scheduledpayment
    (f : list ScheduledPaymentRow.t → list ScheduledPaymentRow.t)
    (db : Database) :=
  mkDatabase (account_account db) (transfer_transfer db)
             (f (transfer_scheduledpayment db)) (transfer_seq db)
             (scheduledpayment_seq db).

(** ** The monad of database code *)

Definition M (A : Type) : Type := Database → Database * (Exception + A).

Definition ret {A} (a : A) : M A := λ db, (db, inr a).

Definition raise {A} (e : Exception) : M A := λ db, (db, inl e).

Definition bind {A B} (m : M A) (k : A → M B) : M B :=
  λ db, match m db with
        | (db', inr a) => k a db'
        | (db', inl e) => (db', inl e)
        end.

Notation "x <- m ;; k" := (bind m (λ x, k))
  (at level 100, m at next level, right associativity).

(** [@transaction.atomic]: an exception leaving the block rolls the store
    back to its state at entry. *)
Definition atomic {A} (m : M A) : M A :=
  λ db, match m db with
        | (db', inr a) => (db', inr a)
        | (_, inl e) => (db, inl e)
        end.

(** [try: m except ...: h]; the handler re-raises what it does not catch. *)
Definition try_except {A} (m : M A) (h : Exception → M A) : M A :=
  λ db, match m db with
        | (db', inl e) => h e db'
        | r => r
        end.

(** [for x in l: f x] *)
Fixpoint for_each {A} (f : A → M unit) (l : list A) : M unit :=
  match l with
  | [] => ret tt
  | x :: l' => _ <- f x ;; for_each f l'
  end.

(** ** account/models.py *)

(** [Sum('amount')] over a queryset: SQL SUM is NULL on no rows. *)
Definition aggregate_Sum (amounts : list Decimal) : option Decimal :=
  match amounts with
  | [] => None
  | _ => Some (foldr Z.add 0%Z amounts)
  end.

(** Python's [x or Decimal(0)]: [None] and a zero sum are both falsy. *)
Definition or_Decimal0 (x : option Decimal) : Decimal :=
  match x with
  | None => 0%Z
  | Some v => if (v =? 0)%Z then 0%Z else v
  end.

Module Account.
(** A model instance: a primary key and a snapshot of the row. *)
Record t := mk {
  pk : nat;
  number : nat;
  owner : nat;
  balance : Decimal;
  reserved_amount : Decimal }.

Definition of_row (k : nat) (r : AccountRow.t) : t :=
  mk k (AccountRow.number r) (AccountRow.owner r) (AccountRow.balance r)
     (AccountRow.reserved_amount r).

Definition get_max_transfer_amount (self : t) : Decimal :=
  (balance self - reserved_amount self)%Z.

(** [self.scheduled_payment_in.filter(status=PENDING)] *)
Definition scheduled_payment_in_pending
    (k : nat) (rows : list ScheduledPaymentRow.t) :=
  filter (λ r, ScheduledPaymentRow.from_account_id r = k
               ∧ ScheduledPaymentRow.status r = PENDING) rows.

Definition reserved_amount_for_scheduled_payment
    (k : nat) (rows : list ScheduledPaymentRow.t) : Decimal :=
  or_Decimal0 (aggregate_Sum
    (ScheduledPaymentRow.amount <$> scheduled_payment_in_pending k rows)).

Definition get_reserved_amount_for_scheduled_payment (self : t)
    : M Decimal :=
  λ db, (db, inr (reserved_amount_for_scheduled_payment
                    (pk self) (transfer_scheduledpayment db))).

(** [Account.objects.get(pk=k)] *)
Definition objects_get (k : nat) : M t :=
  λ db, match account_account db !! k with
        | Some r => (db, inr (of_row k r))
        | None => (db, inl DoesNotExist)
        end.

(** [self.refresh_from_db()] *)
Definition refresh_from_db (self : t) : M t := objects_get (pk self).

(** [Account.objects.select_for_update().filter(pk=k).update(...)]
    with an [F] expression: the row is rewritten in the store; a key
    that matches no row updates nothing. *)
Definition objects_update (k : nat) (f : AccountRow.t → AccountRow.t)
    : M unit :=
  λ db, (set_account_account (alter f k) db, inr tt).

Definition update_reserved_amount (self : t) : M t :=
  v <- get_reserved_amount_for_scheduled_payment self ;;
  let self := mk (pk self) (number self) (owner self) (balance self) v in
  λ db, match account_account db !! pk self with
        | Some _ =>
            (set_account_account
               (alter (AccountRow.set_reserved_amount (λ _, v)) (pk self))
               db, inr self)
        | None => (db, inl DatabaseError)
        end.
End Account.

(** ** transfer/models.py: Transfer *)

Module Transfer.
Abbreviation t := TransferRow.t.

(** [Transfer.objects.create(...)]: the foreign keys must point at
    stored accounts. *)
Definition objects_create (from_account to_account : Account.t)
    (amount : Decimal) : M t :=
  λ db,
    if decide (is_Some (account_account db !! Account.pk from_account)
               ∧ is_Some (account_account db !! Account.pk to_account))
    then
      let tr := TransferRow.mk (S (transfer_seq db))
                  (Account.pk from_account) (Account.pk to_account)
                  amount in
      (mkDatabase (account_account db) (transfer_transfer db ++ [tr])
                  (transfer_scheduledpayment db) (S (transfer_seq db))
                  (scheduledpayment_seq db), inr tr)
    else (db, inl IntegrityError).

(** The body of [do_transfer], without the [@transaction.atomic]
    wrapper. *)
Definition do_transfer_body (from_account to_account : Account.t)
    (amount : Decimal) : M t :=
  if (amount <? 0)%Z then raise NegativeAmountException
  else if (Account.balance from_account <? amount)%Z
  then raise InsufficientBalance
  else
    _ <- Account.objects_update (Account.pk from_account)
           (AccountRow.set_balance (λ b, b - amount)%Z) ;;
    _ <- Account.objects_update (Account.pk to_account)
           (AccountRow.set_balance (λ b, b + amount)%Z) ;;
    objects_create from_account to_account amount.

Definition do_transfer (from_account to_account : Account.t)
    (amount : Decimal) : M t :=
  atomic (do_transfer_body from_account to_account amount).
End Transfer.

(** ** transfer/managers.py *)

Module ScheduledPaymentManager.
(** The class of a queryset: the project's [ScheduledPaymentQuerySet]
    or Django's stock [QuerySet]. *)
Inductive queryset_class := ScheduledPaymentQuerySet | QuerySet.

Record queryset := mk {
  cls : queryset_class;
  where_ : ScheduledPaymentRow.t → bool }.

(** [qs.filter(...)] keeps the class of [qs]. *)
Definition filter_ (kwargs : ScheduledPaymentRow.t → bool)
    (qs : queryset) : queryset :=
  mk (cls qs) (λ r, where_ qs r && kwargs r).

Definition get_queryset : queryset :=
  mk ScheduledPaymentQuerySet (λ _, true).

(** [super().get_queryset()]: [manager.Manager.get_queryset]. *)
Definition super_get_queryset : queryset :=
  mk QuerySet (λ _, true).

(** [ScheduledPayment.objects.all()] *)
Definition all : queryset := get_queryset.

Definition has_status (s : Status) (r : ScheduledPaymentRow.t) : bool :=
  bool_decide (ScheduledPaymentRow.status r = s).

(** [kwargs['status'] = PENDING] overrides a status the caller gave;
    the caller's remaining conditions are [kwargs]. *)
Definition pending (kwargs : ScheduledPaymentRow.t → bool) : queryset :=
  filter_ (λ r, kwargs r && has_status PENDING r) super_get_queryset.


(** The rows a queryset selects, in primary-key order. *)
Definition rows (qs : queryset) (db : Database)
    : list ScheduledPaymentRow.t :=
  filter (λ r, where_ qs r = true) (transfer_scheduledpayment db).

(** [qs.delete()].  [ScheduledPaymentQuerySet.delete] raises; the stock
    [QuerySet.delete] removes the selected rows with one bulk DELETE,
    without calling [Model.delete], and returns their number. *)
Definition delete (qs : queryset) : M nat :=
  match cls qs with
  | ScheduledPaymentQuerySet => raise DeleteEntityException
  | QuerySet =>
      λ db, (set_transfer_scheduledpayment
               (filter (λ r, where_ qs r ≠ true)) db,
             inr (length (rows qs db)))
  end.
End ScheduledPaymentManager.

(** ** transfer/models.py: ScheduledPayment *)

Module ScheduledPayment.
(** A foreign key on a model instance: the related instance once it
    has been assigned or read, or only its primary key. *)
Inductive related :=
  | Deferred (id : nat)
  | Cached (a : Account.t).

Definition related_id (x : related) : nat :=
  match x with
  | Deferred id => id
  | Cached a => Account.pk a
  end.

(** Reading [self.from_account]: the cached instance, or the row read
    from the store at this moment. *)
Definition resolve (x : related) : M Account.t :=
  match x with
  | Deferred id => Account.objects_get id
  | Cached a => ret a
  end.

Record t := mk {
  pk : nat;
  from_account : related;
  to_account : related;
  amount : Decimal;
  status : Status;
  transfer : option Transfer.t;
  on_date : Z }.

Definition set_status (s : Status) (self : t) : t :=
  mk (pk self) (from_account self) (to_account self) (amount self) s
     (transfer self) (on_date self).
Definition set_transfer (x : option Transfer.t) (self : t) : t :=
  mk (pk self) (from_account self) (to_account self) (amount self)
     (status self) x (on_date self).
Definition set_from_account (fa : Account.t) (self : t) : t :=
  mk (pk self) (Cached fa) (to_account self) (amount self) (status self)
     (transfer self) (on_date self).
Definition set_to_account (ta : Account.t) (self : t) : t :=
  mk (pk self) (from_account self) (Cached ta) (amount self) (status self)
     (transfer self) (on_date self).

(** An instance as a queryset yields it: foreign keys not yet read.
    The linked transfer is never read back by the methods below, so
    only its key is kept. *)
Definition of_row (db : Database) (r : ScheduledPaymentRow.t) : t :=
  mk (ScheduledPaymentRow.pk r)
     (Deferred (ScheduledPaymentRow.from_account_id r))
     (Deferred (ScheduledPaymentRow.to_account_id r))
     (ScheduledPaymentRow.amount r) (ScheduledPaymentRow.status r)
     (x ← ScheduledPaymentRow.transfer_id r;
      snd <$> list_find (λ tr, TransferRow.pk tr = x)
                        (transfer_transfer db))
     (ScheduledPaymentRow.on_date r).

(** Iterating a queryset. *)
Definition fetch (qs : ScheduledPaymentManager.queryset) : M (list t) :=
  λ db, (db, inr (of_row db <$> ScheduledPaymentManager.rows qs db)).

(** [ScheduledPayment.objects.get(pk=k)] *)
Definition objects_get (k : nat) : M t :=
  λ db, match list_find (λ r, ScheduledPaymentRow.pk r = k)
                (transfer_scheduledpayment db) with
        | Some (_, r) => (db, inr (of_row db r))
        | None => (db, inl DoesNotExist)
        end.

(** [ScheduledPayment.objects.create(from_account=..., to_account=...,
    amount=..., on_date=...)]: [status] takes its default PENDING and
    [transfer] is NULL. *)
Definition objects_create (from_account to_account : Account.t)
    (amount : Decimal) (on_date : Z) : M t :=
  λ db,
    if decide (is_Some (account_account db !! Account.pk from_account)
               ∧ is_Some (account_account db !! Account.pk to_account))
    then
      let k := S (scheduledpayment_seq db) in
      let r := ScheduledPaymentRow.mk k (Account.pk from_account)
                 (Account.pk to_account) amount PENDING None on_date in
      (mkDatabase (account_account db) (transfer_transfer db)
                  (transfer_scheduledpayment db ++ [r]) (transfer_seq db)
                  k,
       inr (mk k (Cached from_account) (Cached to_account) amount PENDING
               None on_date))
    else (db, inl IntegrityError).

Inductive field := f_transfer | f_status.

Definition write_field (self : t) (f : field)
    (r : ScheduledPaymentRow.t) : ScheduledPaymentRow.t :=
  match f with
  | f_transfer =>
      ScheduledPaymentRow.set_transfer_id
        (TransferRow.pk <$> transfer self) r
  | f_status => ScheduledPaymentRow.set_status (status self) r
  end.

(** [UPDATE ... SET fields WHERE id = self.pk] on the rows. *)
Definition updated_rows (self : t) (update_fields : list field)
    (rows : list ScheduledPaymentRow.t) : list ScheduledPaymentRow.t :=
  (λ r, if decide (ScheduledPaymentRow.pk r = pk self)
        then foldr (write_field self) r update_fields
        else r) <$> rows.

(** [self.save(update_fields=fields)]: an UPDATE of the named columns
    of the row with key [self.pk]; it fails when no row has that key. *)
Definition save (self : t) (update_fields : list field) : M unit :=
  λ db,
    if decide (Exists (λ r, ScheduledPaymentRow.pk r = pk self)
                      (transfer_scheduledpayment db))
    then
      (set_transfer_scheduledpayment (updated_rows self update_fields) db,
       inr tt)
    else (db, inl DatabaseError).

Definition create_scheduled_transfer_body
    (from_account to_account : Account.t) (amount : Decimal)
    (on_date : Z) : M t :=
  if (amount <? 0)%Z then raise NegativeAmountException
  else if (Account.get_max_transfer_amount from_account <? amount)%Z
  then raise InsufficientBalance
  else
    _ <- Account.objects_update (Account.pk from_account)
           (AccountRow.set_reserved_amount (λ x, x + amount)%Z) ;;
    objects_create from_account to_account amount on_date.

Definition create_scheduled_transfer
    (from_account to_account : Account.t) (amount : Decimal)
    (on_date : Z) : M t :=
  atomic (create_scheduled_transfer_body from_account to_account amount
                                         on_date).

(** The [try] block of [create_transfer] and its handler; the result
    is [self] and the local variable [status]. *)
Definition create_transfer_try (self : t) (fa ta : Account.t)
    : M (t * Status) :=
  try_except
    (transfer <- Transfer.do_transfer fa ta (amount self) ;;
     let self := set_transfer (Some transfer) self in
     _ <- save self [f_transfer] ;;
     ret (self, DONE))
    (λ e, match e with
          | InsufficientBalance => ret (self, FAILED)
          | _ => raise e
          end).

Definition create_transfer_body (self : t) : M t :=
  fa <- resolve (from_account self) ;;
  ta <- resolve (to_account self) ;;
  let self := set_to_account ta (set_from_account fa self) in
  r <- create_transfer_try self fa ta ;;
  let self := r.1 in
  let status := r.2 in
  _ <- Account.objects_update (Account.pk fa)
         (AccountRow.set_reserved_amount (λ x, x - amount self)%Z) ;;
  let self := set_status status self in
  _ <- save self [f_status] ;;
  ret self.

Definition create_transfer (self : t) : M t :=
  atomic (create_transfer_body self).

Definition cancel_body (self : t) : M t :=
  fa <- resolve (from_account self) ;;
  let self := set_from_account fa self in
  _ <- Account.objects_update (Account.pk fa)
         (AccountRow.set_reserved_amount (λ x, x - amount self)%Z) ;;
  let self := set_status CANCELED self in
  _ <- save self [f_status] ;;
  ret self.

Definition cancel (self : t) : M t := atomic (cancel_body self).

Definition delete (self : t) : M t := cancel self.
End ScheduledPayment.

(** ** transfer/tasks.py *)

(** [now] is the value of [datetime.now()]. *)
Definition run_transfers_by_scheduled_payments (now : Z) : M unit :=
  let on_date := now in
  scheduled_payments <-
    ScheduledPayment.fetch
      (ScheduledPaymentManager.pending
         (λ r, bool_decide (ScheduledPaymentRow.on_date r ≤ on_date)%Z)) ;;
  for_each (λ scheduled_payment,
              _ <- ScheduledPayment.create_transfer scheduled_payment ;;
              ret tt)
           scheduled_payments.

(** ** Observations on the store *)

Definition balance_of (db : Database) (k : nat) : option Decimal :=
  AccountRow.balance <$> account_account db !! k.

Definition reserved_of (db : Database) (k : nat) : option Decimal :=
  AccountRow.reserved_amount <$> account_account db !! k.

Definition scheduled_row (db : Database) (k : nat)
    : option ScheduledPaymentRow.t :=
  snd <$> list_find (λ r, ScheduledPaymentRow.pk r = k)
                    (transfer_scheduledpayment db).

(** The sum of the balances of the accounts whose keys are listed. *)
Definition total_balance (keys : list nat) (db : Database) : Decimal :=
  foldr Z.add 0%Z ((λ k, default 0%Z (balance_of db k)) <$> keys).

(** A batch of immediate transfers, run one after the other. *)
Definition do_transfers (ts : list (Account.t * Account.t * Decimal))
    : M unit :=
  for_each (λ x, _ <- Transfer.do_transfer x.1.1 x.1.2 x.2 ;; ret tt) ts.

(** ** The fixture of transfer/tests.py *)

Definition account1_row : AccountRow.t := AccountRow.mk 123 1 1000 0.
Definition account2_row : AccountRow.t := AccountRow.mk 456 1 1000 0.

Definition db0 : Database :=
  mkDatabase (<[1 := account1_row]> (<[2 := account2_row]> ∅)) [] [] 0 0.

Definition account1 : Account.t := Account.of_row 1 account1_row.
Definition account2 : Account.t := Account.of_row 2 account2_row.

(** ** The reservation invariant *)

(** The amount a row adds to the PENDING reservations of account [k]. *)
Definition contribution (k : nat) (r : ScheduledPaymentRow.t) : Decimal :=
  if decide (ScheduledPaymentRow.from_account_id r = k
             ∧ ScheduledPaymentRow.status r = PENDING)
  then ScheduledPaymentRow.amount r else 0%Z.

(** For every stored account, the cached [reserved_amount] is what
    [get_reserved_amount_for_scheduled_payment] recomputes. *)
Definition reserved_consistent (db : Database) : Prop :=
  map_Forall
    (λ k r, AccountRow.reserved_amount r =
            Account.reserved_amount_for_scheduled_payment k
              (transfer_scheduledpayment db))
    (account_account db).

(** Primary keys of scheduled payments are unique and were drawn from
    the sequence. *)
Definition well_formed (db : Database) : Prop :=
  NoDup (ScheduledPaymentRow.pk <$> transfer_scheduledpayment db)
  ∧ Forall (λ r, ScheduledPaymentRow.pk r ≤ scheduledpayment_seq db)
           (transfer_scheduledpayment db).

(** An instance that stands for a stored row: same key, accounts and
    amount, and the row's status. *)
Definition stored_instance (db : Database) (self : ScheduledPayment.t)
    (r : ScheduledPaymentRow.t) : Prop :=
  scheduled_row db (ScheduledPayment.pk self) = Some r
  ∧ ScheduledPaymentRow.from_account_id r
    = ScheduledPayment.related_id (ScheduledPayment.from_account self)
  ∧ ScheduledPaymentRow.to_account_id r
    = ScheduledPayment.related_id (ScheduledPayment.to_account self)
  ∧ ScheduledPaymentRow.amount r = ScheduledPayment.amount self
  ∧ ScheduledPaymentRow.status r = ScheduledPayment.status self.

(** ** Sequences of lifecycle operations *)

Inductive operation :=
  | schedule (from_account to_account : Account.t) (amount : Decimal)
             (on_date : Z)
  | settle (pk : nat)
  | cancel (pk : nat).

(** [settle] and [cancel] act on the instance read from the store. *)
Definition run_operation (op : operation) : M unit :=
  match op with
  | schedule f t a d =>
      _ <- ScheduledPayment.create_scheduled_transfer f t a d ;; ret tt
  | settle k =>
      sp <- ScheduledPayment.objects_get k ;;
      _ <- ScheduledPayment.create_transfer sp ;; ret tt
  | cancel k =>
      sp <- ScheduledPayment.objects_get k ;;
      _ <- ScheduledPayment.cancel sp ;; ret tt
  end.

Definition run_operations (ops : list operation) : M unit :=
  for_each run_operation ops.

(** The payment an operation settles or cancels is PENDING in [db]. *)
Definition targets_pending (op : operation) (db : Database) : bool :=
  match op with
  | schedule _ _ _ _ => true
  | settle k | cancel k =>
      match scheduled_row db k with
      | Some r => bool_decide (ScheduledPaymentRow.status r = PENDING)
      | None => false
      end
  end.

(** Every operation of the sequence targets a payment that is PENDING
    when its turn comes. *)
Fixpoint pending_only (ops : list operation) (db : Database) : bool :=
  match ops with
  | [] => true
  | op :: ops' =>
      targets_pending op db
      && match run_operation op db with
         | (db1, inr _) => pending_only ops' db1
         | (_, inl _) => true
         end
  end.

(** [n] schedules from the account with key [k], the instance being
    read from the store before each call. *)
Fixpoint schedule_n (n : nat) (k : nat) (to_account : Account.t)
    (amount : Decimal) (on_date : Z) : M unit :=
  match n with
  | 0 => ret tt
  | S n' =>
      a <- Account.objects_get k ;;
      _ <- ScheduledPayment.create_scheduled_transfer a to_account amount
             on_date ;;
      schedule_n n' k to_account amount on_date
  end.

(** ** Stores after a settlement or a cancellation *)

(** The store after a settlement, given the store [dbt] the transfer
    step left, the instance and the final status. *)
Definition settled (dbt : Database) (fa : Account.t)
    (self_linked self_final : ScheduledPayment.t)
    (link : list ScheduledPayment.field) : Database :=
  set_transfer_scheduledpayment
    (ScheduledPayment.updated_rows self_final [ScheduledPayment.f_status])
    (set_account_account
       (alter (AccountRow.set_reserved_amount
                 (λ x, x - ScheduledPayment.amount self_final)%Z)
              (Account.pk fa))
       (set_transfer_scheduledpayment
          (ScheduledPayment.updated_rows self_linked link) dbt)).

(** ** A scheduled payment in the fixture *)

(** The store after [create_scheduled_transfer(account1, account2, 100,
    on_date=10)] on the fixture. *)
Definition db_scheduled : Database :=
  (ScheduledPayment.create_scheduled_transfer account1 account2 100 10
     db0).1.

Definition payment1_row : ScheduledPaymentRow.t :=
  ScheduledPaymentRow.mk 1 1 2 100 PENDING None 10.

(** The payment as a queryset yields it. *)
Definition payment1 : ScheduledPayment.t :=
  ScheduledPayment.of_row db_scheduled payment1_row.

(** A store [dbt] that differs from [db] at most in balances and in the
    transfers table. *)
Definition same_reservations (db dbt : Database) : Prop :=
  transfer_scheduledpayment dbt = transfer_scheduledpayment db
  ∧ scheduledpayment_seq dbt = scheduledpayment_seq db
  ∧ ∀ k, reserved_of dbt k = reserved_of db k.

(** ** Double cancellation in the fixture *)

(** Schedule one payment of 100 from account 1, then cancel it twice,
    each time on the instance read from the store. *)
Definition cancel_twice : list operation :=
  [schedule account1 account2 100 10; cancel 1; cancel 1].

(** Two schedules, then the first is settled and the second cancelled. *)
Definition schedule_settle_cancel : list operation :=
  [schedule account1 account2 100 10; schedule account1 account2 50 10;
   settle 1; cancel 2].

(** The store after [payment1] has been cancelled, and the cancelled
    payment as read back from it. *)
Definition db_canceled : Database :=
  (ScheduledPayment.cancel payment1 db_scheduled).1.

Definition payment1_canceled_row : ScheduledPaymentRow.t :=
  ScheduledPaymentRow.set_status CANCELED payment1_row.

Definition payment1_canceled : ScheduledPayment.t :=
  ScheduledPayment.of_row db_canceled payment1_canceled_row.

(** ** A tick with a payment whose settlement raises *)

(** Two due PENDING rows; the first carries a negative amount, which
    makes [do_transfer] raise [NegativeAmountException]. *)
Definition negative_row : ScheduledPaymentRow.t :=
  ScheduledPaymentRow.mk 1 1 2 (-1) PENDING None 5.

Definition due_row : ScheduledPaymentRow.t :=
  ScheduledPaymentRow.mk 2 1 2 100 PENDING None 5.

Definition db_due : Database :=
  mkDatabase (<[1 := AccountRow.mk 123 1 1000 99]>
                (<[2 := account2_row]> ∅))
             [] [negative_row; due_row] 0 2.

(** The body of the loop of [run_transfers_by_scheduled_payments]. *)
Definition settle_item (scheduled_payment : ScheduledPayment.t) : M unit :=
  _ <- ScheduledPayment.create_transfer scheduled_payment ;; ret tt.

(** The queryset of a tick at time [now]. *)
Definition due_pending (now : Z) : ScheduledPaymentManager.queryset :=
  ScheduledPaymentManager.pending
    (λ r, bool_decide (ScheduledPaymentRow.on_date r ≤ now)%Z).

(** ** An account with all its balance reserved *)

(** The fixture after ten schedules of 100 from account 1. *)
Definition db_full : Database :=
  (schedule_n 10 1 account2 100 10 db0).1.

(** ** What no lifecycle operation does *)

(** The keys of all stored accounts. *)
Definition all_accounts (db : Database) : list nat :=
  elements (dom (account_account db)).

(** [db'] has the same accounts as [db], the same total balance over any
    duplicate-free list of keys that covers the stored accounts, and a
    transfers table that extends that of [db]. *)
Definition conserves (db db' : Database) : Prop :=
  (∀ k, is_Some (account_account db' !! k)
        ↔ is_Some (account_account db !! k))
  ∧ (∀ keys, NoDup keys →
       (∀ k, is_Some (account_account db !! k) → k ∈ keys) →
       total_balance keys db' = total_balance keys db)
  ∧ transfer_transfer db `prefix_of` transfer_transfer db'.

(** * Properties *)

(** ** Account rows under [F]-expression updates *)

Lemma set_balance_balance f r :
  AccountRow.balance (AccountRow.set_balance f r) = f (AccountRow.balance r).
Proof. reflexivity. Qed.

Lemma set_balance_inverse (d : Z) r :
  AccountRow.set_balance (λ b, b + d)%Z
    (AccountRow.set_balance (λ b, b - d)%Z r) = r.
Proof.
  destruct r as [n o b rs]. unfold AccountRow.set_balance. simpl.
  f_equal. lia.
Qed.

Lemma is_Some_alter (f : AccountRow.t → AccountRow.t)
    (m : gmap nat AccountRow.t) i j :
  is_Some (alter f i m !! j) ↔ is_Some (m !! j).
Proof.
  rewrite lookup_alter. case_decide; [subst|done].
  rewrite !is_Some_alt. by destruct (m !! j).
Qed.

(** ** [Transfer.do_transfer] *)

(** The store after the two balance updates and the insertion. *)
Lemma do_transfer_body_unfold from_account to_account amount db :
  Transfer.do_transfer_body from_account to_account amount db =
  if (amount <? 0)%Z then (db, inl NegativeAmountException)
  else if (Account.balance from_account <? amount)%Z
  then (db, inl InsufficientBalance)
  else
    let accs :=
      alter (AccountRow.set_balance (λ b, b + amount)%Z)
        (Account.pk to_account)
        (alter (AccountRow.set_balance (λ b, b - amount)%Z)
           (Account.pk from_account) (account_account db)) in
    let db2 := mkDatabase accs (transfer_transfer db)
                 (transfer_scheduledpayment db) (transfer_seq db)
                 (scheduledpayment_seq db) in
    if decide (is_Some (account_account db !! Account.pk from_account)
               ∧ is_Some (account_account db !! Account.pk to_account))
    then
      let tr := TransferRow.mk (S (transfer_seq db))
                  (Account.pk from_account) (Account.pk to_account) amount in
      (mkDatabase accs (transfer_transfer db ++ [tr])
         (transfer_scheduledpayment db) (S (transfer_seq db))
         (scheduledpayment_seq db), inr tr)
    else (db2, inl IntegrityError).
Proof.
  unfold Transfer.do_transfer_body.
  destruct (amount <? 0)%Z; [done|].
  destruct (Account.balance from_account <? amount)%Z; [done|].
  unfold bind, Account.objects_update, Transfer.objects_create,
    set_account_account. simpl.
  apply decide_ext. by rewrite !is_Some_alter.
Qed.

Lemma do_transfer_unfold from_account to_account amount db :
  Transfer.do_transfer from_account to_account amount db =
  if (amount <? 0)%Z then (db, inl NegativeAmountException)
  else if (Account.balance from_account <? amount)%Z
  then (db, inl InsufficientBalance)
  else if decide (is_Some (account_account db !! Account.pk from_account)
                  ∧ is_Some (account_account db !! Account.pk to_account))
  then
    let tr := TransferRow.mk (S (transfer_seq db))
                (Account.pk from_account) (Account.pk to_account) amount in
    (mkDatabase
       (alter (AccountRow.set_balance (λ b, b + amount)%Z)
          (Account.pk to_account)
          (alter (AccountRow.set_balance (λ b, b - amount)%Z)
             (Account.pk from_account) (account_account db)))
       (transfer_transfer db ++ [tr])
       (transfer_scheduledpayment db) (S (transfer_seq db))
       (scheduledpayment_seq db), inr tr)
  else (db, inl IntegrityError).
Proof.
  unfold Transfer.do_transfer, atomic.
  rewrite do_transfer_body_unfold.
  destruct (amount <? 0)%Z; [done|].
  destruct (Account.balance from_account <? amount)%Z; [done|].
  simpl. by case_decide.
Qed.

(** What a successful [do_transfer] returns and leaves in the store. *)
Lemma do_transfer_inr from_account to_account amount db db' tr :
  Transfer.do_transfer from_account to_account amount db = (db', inr tr) →
  (0 ≤ amount)%Z ∧ (amount ≤ Account.balance from_account)%Z
  ∧ is_Some (account_account db !! Account.pk from_account)
  ∧ is_Some (account_account db !! Account.pk to_account)
  ∧ tr = TransferRow.mk (S (transfer_seq db)) (Account.pk from_account)
           (Account.pk to_account) amount
  ∧ db' = mkDatabase
       (alter (AccountRow.set_balance (λ b, b + amount)%Z)
          (Account.pk to_account)
          (alter (AccountRow.set_balance (λ b, b - amount)%Z)
             (Account.pk from_account) (account_account db)))
       (transfer_transfer db ++ [tr])
       (transfer_scheduledpayment db) (S (transfer_seq db))
       (scheduledpayment_seq db).
Proof.
  rewrite do_transfer_unfold.
  destruct (amount <? 0)%Z eqn:Hneg; [done|].
  destruct (Account.balance from_account <? amount)%Z eqn:Hbal; [done|].
  case_decide as Hfk; [|done].
  simpl. intros [= <- <-].
  apply Z.ltb_ge in Hneg, Hbal. destruct Hfk. done.
Qed.

Lemma do_transfer_succeeds from_account to_account amount db :
  (0 ≤ amount)%Z → (amount ≤ Account.balance from_account)%Z →
  is_Some (account_account db !! Account.pk from_account) →
  is_Some (account_account db !! Account.pk to_account) →
  ∃ db' tr,
    Transfer.do_transfer from_account to_account amount db = (db', inr tr).
Proof.
  intros Hneg Hbal Hf Ht. rewrite do_transfer_unfold.
  apply Z.ltb_ge in Hneg, Hbal. rewrite Hneg, Hbal.
  rewrite decide_True by done. eauto.
Qed.

(** ** Sums over a list of account keys *)

Lemma sum_indicator_notin (x : nat) (a : Z) (keys : list nat) :
  x ∉ keys →
  foldr Z.add 0%Z ((λ k, if decide (k = x) then a else 0%Z) <$> keys) = 0%Z.
Proof.
  induction keys as [|k keys IH]; [done|].
  rewrite not_elem_of_cons. intros [Hne Hnotin].
  rewrite fmap_cons. cbn [foldr].
  rewrite decide_False by done. rewrite IH by done. lia.
Qed.

Lemma sum_indicator (x : nat) (a : Z) (keys : list nat) :
  NoDup keys → x ∈ keys →
  foldr Z.add 0%Z ((λ k, if decide (k = x) then a else 0%Z) <$> keys) = a.
Proof.
  induction keys as [|k keys IH]; [by rewrite elem_of_nil|].
  rewrite NoDup_cons, elem_of_cons. intros [Hk Hnd] Hin.
  rewrite fmap_cons. cbn [foldr].
  destruct (decide (k = x)) as [->|Hne].
  - rewrite sum_indicator_notin by done. lia.
  - destruct Hin as [->|Hin]; [done|]. rewrite IH by done. lia.
Qed.

Lemma sum_pointwise (g g' d1 d2 : nat → Z) (keys : list nat) :
  (∀ k, g' k = g k + d1 k - d2 k)%Z →
  foldr Z.add 0%Z (g' <$> keys) =
  (foldr Z.add 0%Z (g <$> keys) + foldr Z.add 0%Z (d1 <$> keys)
   - foldr Z.add 0%Z (d2 <$> keys))%Z.
Proof.
  intros Hg. induction keys as [|k keys IH]; [done|].
  rewrite !fmap_cons. cbn [foldr]. rewrite IH, Hg. lia.
Qed.

Lemma balance_after_transfer (m : gmap nat AccountRow.t) (f t k : nat)
    (a : Z) :
  is_Some (m !! f) → is_Some (m !! t) →
  default 0%Z (AccountRow.balance <$>
    alter (AccountRow.set_balance (λ b, b + a)%Z) t
      (alter (AccountRow.set_balance (λ b, b - a)%Z) f m) !! k) =
  (default 0%Z (AccountRow.balance <$> m !! k)
   + (if decide (k = t) then a else 0) - (if decide (k = f) then a else 0))%Z.
Proof.
  intros [rf Hf] [rt Ht]. rewrite !lookup_alter.
  destruct (decide (t = k)) as [->|Hkt], (decide (f = k)) as [->|Hkf];
    repeat (rewrite ?decide_True by done; rewrite ?decide_False by done);
    try rewrite Hf; try rewrite Ht; simpl; try lia;
    destruct (m !! k); simpl; lia.
Qed.

Lemma do_transfer_total keys from_account to_account amount db db' tr :
  NoDup keys →
  Account.pk from_account ∈ keys → Account.pk to_account ∈ keys →
  Transfer.do_transfer from_account to_account amount db = (db', inr tr) →
  total_balance keys db' = total_balance keys db.
Proof.
  intros Hnd Hf Ht Hrun.
  apply do_transfer_inr in Hrun as (_ & _ & Hsf & Hst & _ & ->).
  unfold total_balance, balance_of. simpl.
  rewrite (sum_pointwise
             (λ k, default 0%Z (AccountRow.balance <$> account_account db !! k))
             _ (λ k, if decide (k = Account.pk to_account) then amount else 0%Z)
             (λ k, if decide (k = Account.pk from_account)
                   then amount else 0%Z)).
  - rewrite !sum_indicator by done. lia.
  - intros k. by apply balance_after_transfer.
Qed.

Lemma do_transfers_total keys ts db db' :
  NoDup keys →
  Forall (λ x : Account.t * Account.t * Z,
            Account.pk x.1.1 ∈ keys ∧ Account.pk x.1.2 ∈ keys) ts →
  do_transfers ts db = (db', inr tt) →
  total_balance keys db' = total_balance keys db.
Proof.
  intros Hnd Hall. revert db.
  induction Hall as [|[[f t] a] ts [Hf Ht] Hall IH]; intros db.
  - by intros [= <-].
  - unfold do_transfers. simpl. unfold bind at 1 2.
    destruct (Transfer.do_transfer f t a db) as [db1 [e|tr]] eqn:Hstep;
      [done|].
    simpl in *. intros Hrest.
    rewrite (IH db1 Hrest).
    exact (do_transfer_total keys f t a db db1 tr Hnd Hf Ht Hstep).
Qed.

(** ** Claims about [Transfer.do_transfer] *)

(** C5. [do_transfer] raises [NegativeAmountException] exactly when the
    amount is negative and, for a non-negative amount, raises
    [InsufficientBalance] exactly when the balance of the from-account
    instance (its raw balance: [reserved_amount] is not read) is below the
    amount.  In both cases the exception leaves the body before any
    update: the body itself returns the store it was given, so no balance
    changes and no Transfer row is inserted. *)
Theorem do_transfer_rejection
    (from_account to_account : Account.t) (amount : Decimal)
    (db : Database) :
  let r := Transfer.do_transfer from_account to_account amount db in
  (r.2 = inl NegativeAmountException ↔ (amount < 0)%Z)
  ∧ ((0 ≤ amount)%Z →
     (r.2 = inl InsufficientBalance
      ↔ (Account.balance from_account < amount)%Z))
  ∧ (∀ e, e = NegativeAmountException ∨ e = InsufficientBalance →
          r.2 = inl e →
          Transfer.do_transfer_body from_account to_account amount db
            = (db, inl e)
          ∧ r.1 = db
          ∧ transfer_transfer r.1 = transfer_transfer db
          ∧ ∀ k, balance_of r.1 k = balance_of db k).
Proof.
  cbv zeta. rewrite do_transfer_unfold, do_transfer_body_unfold.
  destruct (amount <? 0)%Z eqn:Hneg.
  { apply Z.ltb_lt in Hneg. simpl. split_and!.
    - done.
    - lia.
    - by intros e _ [= <-]. }
  apply Z.ltb_ge in Hneg.
  destruct (Account.balance from_account <? amount)%Z eqn:Hbal.
  { apply Z.ltb_lt in Hbal. simpl. split_and!.
    - split; [done|lia].
    - done.
    - by intros e _ [= <-]. }
  apply Z.ltb_ge in Hbal. cbv zeta.
  case_decide; simpl; (split_and!;
    [split; [done|lia] | intros _; split; [done|lia]
    | by intros e [->| ->] ]).
Qed.

Lemma do_transfer_rejection_witness :
  (0 ≤ 10000)%Z
  ∧ Transfer.do_transfer account1 account2 10000 db0
    = (db0, inl InsufficientBalance).
Proof.
  split; [lia|].
  destruct (do_transfer_rejection account1 account2 10000 db0)
    as (_ & Hins & Hsame).
  assert (Hraised :
    (Transfer.do_transfer account1 account2 10000 db0).2
    = inl InsufficientBalance).
  { apply Hins; [lia|]. simpl. lia. }
  destruct (Hsame InsufficientBalance (or_intror eq_refl) Hraised)
    as (_ & Hdb & _).
  destruct (Transfer.do_transfer account1 account2 10000 db0) as [d r].
  simpl in *. by subst.
Defined.

(** C2. A successful [do_transfer] first decreases the stored balance of
    the from-account by exactly the amount, then increases the stored
    balance of the to-account by exactly the amount; the sum of the two
    balances afterwards is the sum before, and no other account changes.
    Hence a sequence of successful transfers among the accounts of a
    fixed list of keys leaves their total balance unchanged. *)
Theorem do_transfer_conservation :
  (∀ (from_account to_account : Account.t) (amount : Decimal)
     (db db' : Database) (tr : Transfer.t),
     Transfer.do_transfer from_account to_account amount db = (db', inr tr) →
     ∃ bf bt db1 bt1 bf' bt',
       balance_of db (Account.pk from_account) = Some bf
       ∧ balance_of db (Account.pk to_account) = Some bt
       ∧ Account.objects_update (Account.pk from_account)
           (AccountRow.set_balance (λ b, b - amount)%Z) db = (db1, inr tt)
       ∧ balance_of db1 (Account.pk from_account) = Some (bf - amount)%Z
       ∧ balance_of db1 (Account.pk to_account) = Some bt1
       ∧ balance_of db' (Account.pk to_account) = Some (bt1 + amount)%Z
       ∧ balance_of db' (Account.pk from_account) = Some bf'
       ∧ balance_of db' (Account.pk to_account) = Some bt'
       ∧ (bf' + bt' = bf + bt)%Z
       ∧ (Account.pk from_account ≠ Account.pk to_account →
          bf' = (bf - amount)%Z ∧ bt' = (bt + amount)%Z)
       ∧ (∀ k, k ≠ Account.pk from_account → k ≠ Account.pk to_account →
               account_account db' !! k = account_account db !! k))
  ∧ (∀ (keys : list nat) (ts : list (Account.t * Account.t * Decimal))
       (db db' : Database),
       NoDup keys →
       Forall (λ x : Account.t * Account.t * Z,
                 Account.pk x.1.1 ∈ keys ∧ Account.pk x.1.2 ∈ keys) ts →
       do_transfers ts db = (db', inr tt) →
       total_balance keys db' = total_balance keys db).
Proof.
  split; [|apply do_transfers_total].
  intros fa ta a db db' tr Hrun.
  apply do_transfer_inr in Hrun as (_ & _ & [rf Hf] & [rt Ht] & _ & ->).
  unfold balance_of, Account.objects_update, set_account_account. simpl.
  destruct (decide (Account.pk fa = Account.pk ta)) as [Heq|Hne].
  - rewrite <- Heq in *. assert (rt = rf) as -> by congruence.
    exists (AccountRow.balance rf), (AccountRow.balance rf),
      (set_account_account
         (alter (AccountRow.set_balance (λ b, b - a)%Z) (Account.pk fa)) db).
    exists (AccountRow.balance rf - a)%Z, (AccountRow.balance rf),
      (AccountRow.balance rf).
    rewrite !lookup_alter_eq, Hf. simpl.
    split_and!; simpl; rewrite ?lookup_alter_eq, ?Hf; simpl;
      try done; try (f_equal; lia).
    intros k Hk _. by rewrite !lookup_alter_ne.
  - exists (AccountRow.balance rf), (AccountRow.balance rt),
      (set_account_account
         (alter (AccountRow.set_balance (λ b, b - a)%Z) (Account.pk fa)) db).
    exists (AccountRow.balance rt), (AccountRow.balance rf - a)%Z,
      (AccountRow.balance rt + a)%Z.
    rewrite !lookup_alter_eq.
    rewrite !(lookup_alter_ne _ _ (Account.pk ta) (Account.pk fa)) by done.
    rewrite !(lookup_alter_ne _ _ (Account.pk fa) (Account.pk ta)) by done.
    rewrite !lookup_alter_eq, Hf, Ht. simpl.
    split_and!; simpl;
      rewrite ?lookup_alter_eq, ?(lookup_alter_ne _ _ _ _ Hne), ?Hf, ?Ht;
      simpl; try done; try lia.
    intros k Hkf Hkt. by rewrite !lookup_alter_ne.
Qed.

Lemma do_transfer_conservation_witness :
  (∃ db', Transfer.do_transfer account1 account2 100 db0
          = (db', inr (TransferRow.mk 1 1 2 100))
          ∧ balance_of db' 1 = Some 900%Z
          ∧ balance_of db' 2 = Some 1100%Z)
  ∧ NoDup [1; 2]
  ∧ Forall (λ x : Account.t * Account.t * Z,
              Account.pk x.1.1 ∈ [1; 2] ∧ Account.pk x.1.2 ∈ [1; 2])
           [(account1, account2, 100%Z); (account2, account2, 7%Z)]
  ∧ ∃ db', do_transfers [(account1, account2, 100%Z);
                         (account2, account2, 7%Z)] db0 = (db', inr tt)
           ∧ total_balance [1; 2] db' = total_balance [1; 2] db0.
Proof.
  destruct do_transfer_conservation as [Hstep Hseq].
  assert (Hnd : NoDup [1; 2]).
  { apply NoDup_cons. split; [|apply NoDup_singleton].
    rewrite list_elem_of_singleton. lia. }
  assert (Hin : Forall (λ x : Account.t * Account.t * Z,
              Account.pk x.1.1 ∈ [1; 2] ∧ Account.pk x.1.2 ∈ [1; 2])
           [(account1, account2, 100%Z); (account2, account2, 7%Z)]).
  { repeat constructor; simpl; rewrite ?elem_of_cons; auto. }
  split_and!; [|done|done|].
  - pose (db1 := (Transfer.do_transfer account1 account2 100 db0).1).
    assert (Hrun : Transfer.do_transfer account1 account2 100 db0
                   = (db1, inr (TransferRow.mk 1 1 2 100)))
      by (vm_compute; reflexivity).
    exists db1. split; [done|].
    destruct (Hstep _ _ _ _ _ _ Hrun) as
        (bf & bt & d1 & bt1 & bf' & bt' & H1 & H2 & _ & _ & _ & _
         & H7 & H8 & _ & H10 & _).
    vm_compute in H1, H2. injection H1 as <-. injection H2 as <-.
    destruct H10 as [-> ->]; [simpl; lia|].
    split; [exact H7|exact H8].
  - pose (db2 := (do_transfers [(account1, account2, 100%Z);
                                (account2, account2, 7%Z)] db0).1).
    assert (Hrun : do_transfers [(account1, account2, 100%Z);
                                 (account2, account2, 7%Z)] db0
                   = (db2, inr tt))
      by (vm_compute; reflexivity).
    exists db2. split; [done|]. by eapply Hseq.
Defined.

(** C9 as written fails: a transfer of amount 0 is recorded. *)
Lemma do_transfer_zero_amount_recorded :
  ∃ db' tr,
    Transfer.do_transfer account1 account2 0 db0 = (db', inr tr)
    ∧ tr ∈ transfer_transfer db'
    ∧ TransferRow.amount tr = 0%Z
    ∧ ¬ (0 < TransferRow.amount tr)%Z.
Proof.
  eexists _, _. split; [reflexivity|]. simpl.
  split_and!; [apply list_elem_of_singleton; reflexivity|done|lia].
Qed.

(** C9, amended. Every Transfer row created through [do_transfer] carries
    the amount of the call, which is not negative; a call with amount 0
    from an instance whose balance is not negative, between stored
    accounts, does create a Transfer row, of amount 0. *)
Theorem do_transfer_amount_nonneg :
  (∀ (from_account to_account : Account.t) (amount : Decimal)
     (db db' : Database) (tr : Transfer.t),
     Transfer.do_transfer from_account to_account amount db = (db', inr tr) →
     TransferRow.amount tr = amount
     ∧ (0 ≤ TransferRow.amount tr)%Z
     ∧ transfer_transfer db' = transfer_transfer db ++ [tr])
  ∧ (∀ (from_account to_account : Account.t) (db : Database),
       (0 ≤ Account.balance from_account)%Z →
       is_Some (account_account db !! Account.pk from_account) →
       is_Some (account_account db !! Account.pk to_account) →
       ∃ db' tr,
         Transfer.do_transfer from_account to_account 0 db = (db', inr tr)
         ∧ TransferRow.amount tr = 0%Z
         ∧ transfer_transfer db' = transfer_transfer db ++ [tr]).
Proof.
  split.
  - intros fa ta a db db' tr Hrun.
    apply do_transfer_inr in Hrun as (Hneg & _ & _ & _ & -> & ->). done.
  - intros fa ta db Hbal Hf Ht.
    destruct (do_transfer_succeeds fa ta 0 db) as (db' & tr & Hrun);
      [lia|done|done|done|].
    exists db', tr. split; [done|].
    apply do_transfer_inr in Hrun as (_ & _ & _ & _ & -> & ->). done.
Qed.

Lemma do_transfer_amount_nonneg_witness :
  (0 ≤ Account.balance account1)%Z
  ∧ is_Some (account_account db0 !! Account.pk account1)
  ∧ is_Some (account_account db0 !! Account.pk account2)
  ∧ ∃ db' tr,
      Transfer.do_transfer account1 account2 0 db0 = (db', inr tr)
      ∧ TransferRow.amount tr = 0%Z
      ∧ (0 ≤ TransferRow.amount tr)%Z
      ∧ transfer_transfer db' = transfer_transfer db0 ++ [tr].
Proof.
  destruct do_transfer_amount_nonneg as [Hany Hzero].
  assert (H1 : (0 ≤ Account.balance account1)%Z) by (simpl; lia).
  assert (H2 : is_Some (account_account db0 !! Account.pk account1))
    by (eexists; reflexivity).
  assert (H3 : is_Some (account_account db0 !! Account.pk account2))
    by (eexists; reflexivity).
  split_and!; [done..|].
  destruct (Hzero account1 account2 db0 H1 H2 H3)
    as (db' & tr & Hrun & Ha & Hrows).
  exists db', tr. split_and!; [done|done| |done].
  by destruct (Hany _ _ _ _ _ _ Hrun) as (_ & Hnn & _).
Defined.

(** C10. A self-transfer of an amount between 0 and the balance of the
    instance, for a stored account, is not rejected: it succeeds, the
    decrement and the increment cancel so that the accounts table (and so
    the balance of the account) is as before, and one Transfer row is
    inserted whose from- and to-account are both that account and whose
    amount is the given one. *)
Theorem do_transfer_self (a : Account.t) (d : Decimal) (db : Database) :
  is_Some (account_account db !! Account.pk a) →
  (0 ≤ d ≤ Account.balance a)%Z →
  ∃ db' tr,
    Transfer.do_transfer a a d db = (db', inr tr)
    ∧ account_account db' = account_account db
    ∧ balance_of db' (Account.pk a) = balance_of db (Account.pk a)
    ∧ TransferRow.from_account_id tr = Account.pk a
    ∧ TransferRow.to_account_id tr = Account.pk a
    ∧ TransferRow.amount tr = d
    ∧ transfer_transfer db' = transfer_transfer db ++ [tr].
Proof.
  intros Hstored [Hneg Hbal].
  destruct (do_transfer_succeeds a a d db) as (db' & tr & Hrun);
    [done..|].
  exists db', tr. split; [done|].
  apply do_transfer_inr in Hrun as (_ & _ & _ & _ & -> & ->).
  assert (Hsame :
    alter (AccountRow.set_balance (λ b, b + d)%Z) (Account.pk a)
      (alter (AccountRow.set_balance (λ b, b - d)%Z) (Account.pk a)
         (account_account db)) = account_account db).
  { apply map_eq. intros k.
    destruct (decide (Account.pk a = k)) as [<-|Hne];
      [|by rewrite !lookup_alter_ne].
    rewrite !lookup_alter_eq.
    destruct (account_account db !! Account.pk a) as [r|]; [|done].
    change (Some (AccountRow.set_balance (λ b, b + d)%Z
                    (AccountRow.set_balance (λ b, b - d)%Z r)) = Some r).
    by rewrite set_balance_inverse. }
  unfold balance_of. simpl. by rewrite Hsame.
Qed.

Lemma do_transfer_self_witness :
  is_Some (account_account db0 !! Account.pk account1)
  ∧ (0 ≤ 250 ≤ Account.balance account1)%Z
  ∧ ∃ db' tr,
      Transfer.do_transfer account1 account1 250 db0 = (db', inr tr)
      ∧ balance_of db' 1 = Some 1000%Z
      ∧ tr = TransferRow.mk 1 1 1 250.
Proof.
  assert (H1 : is_Some (account_account db0 !! Account.pk account1))
    by (eexists; reflexivity).
  assert (H2 : (0 ≤ 250 ≤ Account.balance account1)%Z) by (simpl; lia).
  split_and!; [done..|].
  destruct (do_transfer_self account1 250 db0 H1 H2)
    as (db' & tr & Hrun & _ & Hb & Hf & Ht & Ha & _).
  exists db', tr. split_and!; [done| |].
  - etrans; [exact Hb|reflexivity].
  - destruct tr as [k f t am]. simpl in *. subst.
    apply do_transfer_inr in Hrun as (_ & _ & _ & _ & Htr & _).
    by injection Htr as ->.
Defined.

(** ** [ScheduledPayment.create_scheduled_transfer] *)

Lemma create_scheduled_transfer_unfold from_account to_account amount
    on_date db :
  ScheduledPayment.create_scheduled_transfer from_account to_account amount
    on_date db =
  if (amount <? 0)%Z then (db, inl NegativeAmountException)
  else if (Account.get_max_transfer_amount from_account <? amount)%Z
  then (db, inl InsufficientBalance)
  else if decide (is_Some (account_account db !! Account.pk from_account)
                  ∧ is_Some (account_account db !! Account.pk to_account))
  then
    let k := S (scheduledpayment_seq db) in
    (mkDatabase
       (alter (AccountRow.set_reserved_amount (λ x, x + amount)%Z)
          (Account.pk from_account) (account_account db))
       (transfer_transfer db)
       (transfer_scheduledpayment db ++
          [ScheduledPaymentRow.mk k (Account.pk from_account)
             (Account.pk to_account) amount PENDING None on_date])
       (transfer_seq db) k,
     inr (ScheduledPayment.mk k (ScheduledPayment.Cached from_account)
            (ScheduledPayment.Cached to_account) amount PENDING None
            on_date))
  else (db, inl IntegrityError).
Proof.
  unfold ScheduledPayment.create_scheduled_transfer, atomic,
    ScheduledPayment.create_scheduled_transfer_body.
  destruct (amount <? 0)%Z; [done|].
  destruct (Account.get_max_transfer_amount from_account <? amount)%Z;
    [done|].
  unfold bind, Account.objects_update, ScheduledPayment.objects_create,
    set_account_account. simpl.
  rewrite (decide_ext _
    (is_Some (account_account db !! Account.pk from_account)
     ∧ is_Some (account_account db !! Account.pk to_account)))
    by (by rewrite !is_Some_alter).
  by case_decide.
Qed.

Lemma set_reserved_amount_add (a b : Z) r :
  AccountRow.set_reserved_amount (λ x, x + b)%Z
    (AccountRow.set_reserved_amount (λ x, x + a)%Z r)
  = AccountRow.set_reserved_amount (λ x, x + (a + b))%Z r.
Proof.
  destruct r. unfold AccountRow.set_reserved_amount. simpl. f_equal. lia.
Qed.

Lemma set_reserved_amount_zero r :
  AccountRow.set_reserved_amount (λ x, x + 0)%Z r = r.
Proof.
  destruct r. unfold AccountRow.set_reserved_amount. simpl. f_equal. lia.
Qed.

(** [n] schedules of [a], each on a freshly read instance, succeed while
    the reservations fit in the balance, and reserve [n * a]. *)
Lemma schedule_n_reserves n k to_account (a : Z) on_date db row :
  (0 ≤ a)%Z →
  account_account db !! k = Some row →
  is_Some (account_account db !! Account.pk to_account) →
  (AccountRow.reserved_amount row + Z.of_nat n * a
   ≤ AccountRow.balance row)%Z →
  ∃ db',
    schedule_n n k to_account a on_date db = (db', inr tt)
    ∧ account_account db' !! k
      = Some (AccountRow.set_reserved_amount
                (λ x, x + Z.of_nat n * a)%Z row)
    ∧ is_Some (account_account db' !! Account.pk to_account)
    ∧ length (transfer_scheduledpayment db')
      = (length (transfer_scheduledpayment db) + n)%nat.
Proof.
  intros Ha. revert db row.
  induction n as [|n IH]; intros db row Hrow Hto Hfits.
  - exists db. simpl. rewrite set_reserved_amount_zero.
    split_and!; [done|done|done|lia].
  - assert (Hmul : (Z.of_nat (S n) * a = a + Z.of_nat n * a)%Z)
      by (rewrite Nat2Z.inj_succ; lia).
    rewrite Hmul in Hfits |- *.
    cbn [schedule_n]. unfold bind at 1.
    unfold Account.objects_get at 1. rewrite Hrow.
    unfold bind at 1. rewrite create_scheduled_transfer_unfold.
    assert (Hnn : (a <? 0)%Z = false) by (by apply Z.ltb_ge).
    rewrite Hnn.
    unfold Account.get_max_transfer_amount. simpl.
    assert (Hok : (AccountRow.balance row - AccountRow.reserved_amount row
                   <? a)%Z = false).
    { apply Z.ltb_ge. assert (0 ≤ Z.of_nat n * a)%Z by lia. lia. }
    rewrite Hok. rewrite decide_True by (by rewrite Hrow).
    cbv zeta.
    set (db1 := mkDatabase _ _ _ _ _).
    destruct (IH db1 (AccountRow.set_reserved_amount (λ x, x + a)%Z row))
      as (db' & Hrun & Hk & Hto' & Hlen).
    + unfold db1. simpl. by rewrite lookup_alter_eq, Hrow.
    + unfold db1. simpl. by rewrite is_Some_alter.
    + simpl. lia.
    + exists db'. split; [done|]. rewrite Hk, set_reserved_amount_add.
      split; [done|split; [done|]].
      rewrite Hlen. unfold db1. simpl. rewrite length_app. simpl. lia.
Qed.

(** C4. For a non-negative amount, [create_scheduled_transfer] raises
    [InsufficientBalance] exactly when the amount exceeds what
    [get_max_transfer_amount] returns for the from-account instance
    (balance minus reserved_amount).  When it succeeds, the stored
    [reserved_amount] of the from-account has grown by the amount, one
    ScheduledPayment row in status PENDING has been appended, and no
    balance has changed.  In particular, from an account with balance
    1000 and nothing reserved, ten schedules of 100 succeed and the
    eleventh, on the account as it is then stored, raises
    [InsufficientBalance]. *)
Theorem create_scheduled_transfer_reserves :
  (∀ (from_account to_account : Account.t) (amount : Decimal)
     (on_date : Z) (db : Database),
     (0 ≤ amount)%Z →
     let r := ScheduledPayment.create_scheduled_transfer from_account
                to_account amount on_date db in
     (r.2 = inl InsufficientBalance
      ↔ (Account.get_max_transfer_amount from_account < amount)%Z)
     ∧ ∀ sp, r.2 = inr sp →
         ∃ res,
           reserved_of db (Account.pk from_account) = Some res
           ∧ reserved_of r.1 (Account.pk from_account)
             = Some (res + amount)%Z
           ∧ transfer_scheduledpayment r.1
             = transfer_scheduledpayment db ++
               [ScheduledPaymentRow.mk (ScheduledPayment.pk sp)
                  (Account.pk from_account) (Account.pk to_account)
                  amount PENDING None on_date]
           ∧ ScheduledPayment.status sp = PENDING
           ∧ (∀ k, balance_of r.1 k = balance_of db k)
           ∧ (∀ k, k ≠ Account.pk from_account →
                   reserved_of r.1 k = reserved_of db k))
  ∧ (∀ (db : Database) (k : nat) (row : AccountRow.t)
       (to_account : Account.t) (on_date : Z),
       account_account db !! k = Some row →
       AccountRow.balance row = 1000%Z →
       AccountRow.reserved_amount row = 0%Z →
       is_Some (account_account db !! Account.pk to_account) →
       ∃ db10 a,
         schedule_n 10 k to_account 100 on_date db = (db10, inr tt)
         ∧ length (transfer_scheduledpayment db10)
           = (length (transfer_scheduledpayment db) + 10)%nat
         ∧ Account.objects_get k db10 = (db10, inr a)
         ∧ Account.balance a = 1000%Z
         ∧ Account.reserved_amount a = 1000%Z
         ∧ ScheduledPayment.create_scheduled_transfer a to_account 100
             on_date db10 = (db10, inl InsufficientBalance)).
Proof.
  split.
  - intros fa ta a d db Ha. cbv zeta.
    rewrite create_scheduled_transfer_unfold.
    apply Z.ltb_ge in Ha. rewrite Ha.
    destruct (Account.get_max_transfer_amount fa <? a)%Z eqn:Hmax.
    { apply Z.ltb_lt in Hmax. simpl. split; [done|]. by intros sp. }
    apply Z.ltb_ge in Hmax.
    case_decide as Hfk; simpl.
    + split; [split; [done|lia]|].
      intros sp [= <-]. destruct Hfk as [[rf Hf] _].
      exists (AccountRow.reserved_amount rf).
      unfold reserved_of, balance_of. simpl.
      rewrite lookup_alter_eq, Hf. simpl. split_and!; try done.
      * intros k. rewrite lookup_alter. case_decide; [subst|done].
        by rewrite Hf.
      * intros k Hk. by rewrite lookup_alter_ne.
    + split; [split; [done|lia]|]. by intros sp.
  - intros db k row ta d Hrow Hbal Hres Hto.
    destruct (schedule_n_reserves 10 k ta 100 d db row)
      as (db10 & Hrun & Hk & Hto' & Hlen); [lia|done|done|lia|].
    exists db10, (Account.of_row k
      (AccountRow.set_reserved_amount (λ x, x + Z.of_nat 10 * 100)%Z row)).
    split_and!; try done.
    + unfold Account.objects_get. by rewrite Hk.
    + simpl. lia.
    + rewrite create_scheduled_transfer_unfold.
      unfold Account.get_max_transfer_amount. simpl.
      rewrite Hbal, Hres. done.
Qed.

Lemma create_scheduled_transfer_reserves_witness :
  (0 ≤ 100)%Z
  ∧ account_account db0 !! 1 = Some account1_row
  ∧ AccountRow.balance account1_row = 1000%Z
  ∧ AccountRow.reserved_amount account1_row = 0%Z
  ∧ is_Some (account_account db0 !! Account.pk account2)
  ∧ ((ScheduledPayment.create_scheduled_transfer account1 account2 100 7
        db0).2 = inl InsufficientBalance
     ↔ (Account.get_max_transfer_amount account1 < 100)%Z)
  ∧ ∃ db10 a,
      schedule_n 10 1 account2 100 7 db0 = (db10, inr tt)
      ∧ ScheduledPayment.create_scheduled_transfer a account2 100 7 db10
        = (db10, inl InsufficientBalance).
Proof.
  destruct create_scheduled_transfer_reserves as [Hone Hten].
  assert (H0 : (0 ≤ 100)%Z) by lia.
  assert (H1 : account_account db0 !! 1 = Some account1_row)
    by reflexivity.
  assert (H2 : is_Some (account_account db0 !! Account.pk account2))
    by (eexists; reflexivity).
  split; [exact H0|]. split; [exact H1|].
  split; [reflexivity|]. split; [reflexivity|]. split; [exact H2|].
  split.
  - exact (proj1 (Hone account1 account2 100%Z 7%Z db0 H0)).
  - destruct (Hten db0 1 account1_row account2 7%Z H1 eq_refl eq_refl H2)
      as (db10 & a & Hrun & _ & _ & _ & _ & Hfail).
    exists db10, a. split; [exact Hrun|exact Hfail].
Defined.

(** The check reads the instance it is given, not the stored row: when
    the amount fits the instance, the reservation is made whatever the
    store holds for that account. *)
Lemma create_scheduled_transfer_reads_instance
    (from_account to_account : Account.t) (amount : Decimal) (on_date : Z)
    (db : Database) :
  (0 ≤ amount ≤ Account.get_max_transfer_amount from_account)%Z →
  is_Some (account_account db !! Account.pk from_account) →
  is_Some (account_account db !! Account.pk to_account) →
  ∃ db' sp,
    ScheduledPayment.create_scheduled_transfer from_account to_account
      amount on_date db = (db', inr sp)
    ∧ reserved_of db' (Account.pk from_account)
      = (λ x, x + amount)%Z <$> reserved_of db (Account.pk from_account).
Proof.
  intros [Hnn Hfits] Hf Ht.
  rewrite create_scheduled_transfer_unfold.
  apply Z.ltb_ge in Hnn, Hfits. rewrite Hnn, Hfits.
  rewrite decide_True by done. cbv zeta.
  eexists _, _. split; [reflexivity|].
  unfold reserved_of. simpl. rewrite lookup_alter_eq.
  by destruct (account_account db !! Account.pk from_account).
Qed.

(** ** Rows of scheduled payments under [save] *)

Lemma write_fields_pk self fields r :
  ScheduledPaymentRow.pk (foldr (ScheduledPayment.write_field self) r fields)
  = ScheduledPaymentRow.pk r.
Proof.
  induction fields as [|f fields IH]; [done|].
  simpl. by destruct f.
Qed.

Lemma updated_rows_pk self fields rows :
  ScheduledPaymentRow.pk <$> ScheduledPayment.updated_rows self fields rows
  = ScheduledPaymentRow.pk <$> rows.
Proof.
  unfold ScheduledPayment.updated_rows.
  rewrite <- list_fmap_compose. apply list_fmap_ext.
  intros i r _. simpl. case_decide; [|done]. apply write_fields_pk.
Qed.

Lemma Exists_pk_fmap (k : nat) rows :
  Exists (λ r, ScheduledPaymentRow.pk r = k) rows
  ↔ k ∈ ScheduledPaymentRow.pk <$> rows.
Proof.
  rewrite Exists_exists, list_elem_of_fmap. naive_solver.
Qed.

Lemma Exists_updated_rows (k : nat) self fields rows :
  Exists (λ r, ScheduledPaymentRow.pk r = k)
         (ScheduledPayment.updated_rows self fields rows)
  ↔ Exists (λ r, ScheduledPaymentRow.pk r = k) rows.
Proof. by rewrite !Exists_pk_fmap, updated_rows_pk. Qed.

Lemma updated_rows_absent self fields rows :
  Forall (λ r, ScheduledPaymentRow.pk r ≠ ScheduledPayment.pk self) rows →
  ScheduledPayment.updated_rows self fields rows = rows.
Proof.
  induction 1 as [|r rows Hr _ IH]; [done|].
  unfold ScheduledPayment.updated_rows in *. rewrite fmap_cons, IH.
  by rewrite decide_False.
Qed.

Lemma updated_rows_nil self rows :
  ScheduledPayment.updated_rows self [] rows = rows.
Proof.
  unfold ScheduledPayment.updated_rows.
  induction rows as [|r rows IH]; [done|].
  rewrite fmap_cons, IH. simpl. by destruct (decide _).
Qed.

Lemma find_updated_rows self fields rows r :
  snd <$> list_find (λ x, ScheduledPaymentRow.pk x = ScheduledPayment.pk self)
                    rows = Some r →
  snd <$> list_find (λ x, ScheduledPaymentRow.pk x = ScheduledPayment.pk self)
                    (ScheduledPayment.updated_rows self fields rows)
  = Some (foldr (ScheduledPayment.write_field self) r fields).
Proof.
  unfold ScheduledPayment.updated_rows.
  induction rows as [|x rows IH]; [done|].
  rewrite fmap_cons. cbn [list_find].
  destruct (decide (ScheduledPaymentRow.pk x = ScheduledPayment.pk self))
    as [Hx|Hx].
  - rewrite decide_True by (by rewrite write_fields_pk).
    simpl. by intros [= ->].
  - rewrite decide_False by done.
    rewrite <- !option_fmap_compose. apply IH.
Qed.

Lemma find_row_elem_of (k : nat) rows r :
  snd <$> list_find (λ x, ScheduledPaymentRow.pk x = k) rows = Some r →
  r ∈ rows ∧ ScheduledPaymentRow.pk r = k.
Proof.
  intros ([i r'] & Hfind & ->)%fmap_Some.
  apply list_find_Some in Hfind as (Hi & Hpk & _).
  split; [|done]. by eapply list_elem_of_lookup_2.
Qed.

Lemma find_row_Exists (k : nat) rows :
  Exists (λ r, ScheduledPaymentRow.pk r = k) rows →
  ∃ r, snd <$> list_find (λ x, ScheduledPaymentRow.pk x = k) rows = Some r.
Proof.
  intros (r & Hr & Hpk)%Exists_exists.
  destruct (list_find_elem_of (λ x, ScheduledPaymentRow.pk x = k) rows r)
    as [[i r'] Hfind]; [done..|].
  exists r'. by rewrite Hfind.
Qed.

(** ** The recomputed reservation as a sum of contributions *)

Lemma or_aggregate_Sum (l : list Z) :
  or_Decimal0 (aggregate_Sum l) = foldr Z.add 0%Z l.
Proof.
  destruct l as [|x l]; [done|].
  unfold aggregate_Sum, or_Decimal0.
  destruct (Z.eqb_spec (foldr Z.add 0%Z (x :: l)) 0); congruence.
Qed.

Lemma reserved_amount_as_contributions (k : nat) rows :
  Account.reserved_amount_for_scheduled_payment k rows
  = foldr Z.add 0%Z (contribution k <$> rows).
Proof.
  unfold Account.reserved_amount_for_scheduled_payment,
    Account.scheduled_payment_in_pending.
  rewrite or_aggregate_Sum.
  induction rows as [|r rows IH]; [done|].
  rewrite filter_cons, fmap_cons. cbn [foldr]. unfold contribution at 1.
  case_decide.
  - rewrite fmap_cons. cbn [foldr]. by rewrite IH.
  - rewrite IH. lia.
Qed.

Lemma contributions_app (k : nat) rows1 rows2 :
  foldr Z.add 0%Z (contribution k <$> rows1 ++ rows2)
  = (foldr Z.add 0%Z (contribution k <$> rows1)
     + foldr Z.add 0%Z (contribution k <$> rows2))%Z.
Proof.
  induction rows1 as [|r rows1 IH]; [simpl; lia|].
  rewrite <- app_comm_cons, !fmap_cons. cbn [foldr]. rewrite IH. lia.
Qed.

(** Rewriting the one row with key [self.pk] changes the sum by the
    difference of the two contributions. *)
Lemma contributions_updated_rows (k : nat) self fields rows r :
  NoDup (ScheduledPaymentRow.pk <$> rows) →
  r ∈ rows → ScheduledPaymentRow.pk r = ScheduledPayment.pk self →
  foldr Z.add 0%Z
    (contribution k <$> ScheduledPayment.updated_rows self fields rows)
  = (foldr Z.add 0%Z (contribution k <$> rows)
     + contribution k (foldr (ScheduledPayment.write_field self) r fields)
     - contribution k r)%Z.
Proof.
  induction rows as [|x rows IH]; [by rewrite elem_of_nil|].
  rewrite fmap_cons, NoDup_cons, elem_of_cons. intros [Hx Hnd] Hin Hpk.
  destruct (decide (ScheduledPaymentRow.pk x = ScheduledPayment.pk self))
    as [Heq|Hne].
  - assert (Habsent : Forall (λ y, ScheduledPaymentRow.pk y
                                   ≠ ScheduledPayment.pk self) rows).
    { apply Forall_forall. intros y Hy Hypk. apply Hx.
      rewrite Heq, <- Hypk. by apply list_elem_of_fmap_2. }
    assert (r = x) as ->.
    { destruct Hin as [->|Hin]; [done|].
      rewrite Forall_forall in Habsent. by destruct (Habsent r Hin). }
    unfold ScheduledPayment.updated_rows. rewrite fmap_cons.
    rewrite decide_True by done.
    fold (ScheduledPayment.updated_rows self fields rows).
    rewrite updated_rows_absent by done.
    rewrite !fmap_cons. cbn [foldr]. lia.
  - destruct Hin as [->|Hin]; [done|].
    unfold ScheduledPayment.updated_rows. rewrite fmap_cons.
    rewrite decide_False by done.
    fold (ScheduledPayment.updated_rows self fields rows).
    rewrite !fmap_cons. cbn [foldr]. rewrite IH by done. lia.
Qed.

(** ** [ScheduledPayment.create_transfer] and [ScheduledPayment.cancel] *)

Lemma resolve_stored x db :
  is_Some (account_account db !! ScheduledPayment.related_id x) →
  ∃ a, ScheduledPayment.resolve x db = (db, inr a)
       ∧ Account.pk a = ScheduledPayment.related_id x.
Proof.
  destruct x as [id|a]; simpl.
  - intros [r Hr]. exists (Account.of_row id r).
    unfold Account.objects_get. by rewrite Hr.
  - intros _. by exists a.
Qed.

Lemma resolve_inr x db db' a :
  ScheduledPayment.resolve x db = (db', inr a) →
  db' = db ∧ Account.pk a = ScheduledPayment.related_id x.
Proof.
  destruct x as [id|a']; simpl.
  - unfold Account.objects_get.
    destruct (account_account db !! id); [|done]. by intros [= <- <-].
  - by intros [= <- <-].
Qed.

Lemma create_transfer_unfold self db fa ta :
  ScheduledPayment.resolve (ScheduledPayment.from_account self) db
    = (db, inr fa) →
  ScheduledPayment.resolve (ScheduledPayment.to_account self) db
    = (db, inr ta) →
  let self1 := ScheduledPayment.set_to_account ta
                 (ScheduledPayment.set_from_account fa self) in
  ScheduledPayment.create_transfer self db =
  match Transfer.do_transfer fa ta (ScheduledPayment.amount self) db with
  | (dbt, inr tr) =>
      let self2 := ScheduledPayment.set_transfer (Some tr) self1 in
      let self3 := ScheduledPayment.set_status DONE self2 in
      if decide (Exists (λ r, ScheduledPaymentRow.pk r
                              = ScheduledPayment.pk self)
                        (transfer_scheduledpayment dbt))
      then (settled dbt fa self2 self3 [ScheduledPayment.f_transfer],
            inr self3)
      else (db, inl DatabaseError)
  | (_, inl InsufficientBalance) =>
      let self3 := ScheduledPayment.set_status FAILED self1 in
      if decide (Exists (λ r, ScheduledPaymentRow.pk r
                              = ScheduledPayment.pk self)
                        (transfer_scheduledpayment db))
      then (settled db fa self1 self3 [], inr self3)
      else (db, inl DatabaseError)
  | (_, inl e) => (db, inl e)
  end.
Proof.
  intros Hfa Hta. cbv zeta.
  unfold ScheduledPayment.create_transfer, atomic,
    ScheduledPayment.create_transfer_body,
    ScheduledPayment.create_transfer_try, try_except, bind.
  rewrite Hfa, Hta.
  cbn [ScheduledPayment.amount ScheduledPayment.set_to_account
       ScheduledPayment.set_from_account].
  pose proof (do_transfer_unfold fa ta (ScheduledPayment.amount self) db)
    as Hdt.
  destruct (Transfer.do_transfer fa ta (ScheduledPayment.amount self) db)
    as [dbt [e|tr]] eqn:Hrun.
  - assert (dbt = db) as ->.
    { revert Hdt. repeat case_match; by intros [= -> _]. }
    destruct e; try done.
    unfold ScheduledPayment.save, Account.objects_update, ret. simpl.
    clear Hdt. case_decide; [|done]. unfold settled.
    unfold set_transfer_scheduledpayment at 3. simpl.
    rewrite updated_rows_nil. by destruct db.
  - clear Hdt. unfold ScheduledPayment.save at 1. simpl.
    case_decide as Hex; simpl; [|done].
    unfold ScheduledPayment.save, Account.objects_update, ret. simpl.
    rewrite decide_True by (by apply Exists_updated_rows).
    done.
Qed.

Lemma cancel_unfold self db fa :
  ScheduledPayment.resolve (ScheduledPayment.from_account self) db
    = (db, inr fa) →
  let self1 := ScheduledPayment.set_status CANCELED
                 (ScheduledPayment.set_from_account fa self) in
  ScheduledPayment.cancel self db =
  if decide (Exists (λ r, ScheduledPaymentRow.pk r = ScheduledPayment.pk self)
                    (transfer_scheduledpayment db))
  then (settled db fa self1 self1 [], inr self1)
  else (db, inl DatabaseError).
Proof.
  intros Hfa. cbv zeta.
  unfold ScheduledPayment.cancel, atomic, ScheduledPayment.cancel_body.
  unfold bind at 1. rewrite Hfa.
  unfold bind, ScheduledPayment.save, Account.objects_update, ret. simpl.
  case_decide; [|done]. unfold settled.
  unfold set_transfer_scheduledpayment at 3. simpl.
  rewrite updated_rows_nil. by destruct db.
Qed.

(** ** Facts about the store a settlement leaves *)

Lemma reserved_alter_balance f (j k : nat) (m : gmap nat AccountRow.t) :
  AccountRow.reserved_amount <$> alter (AccountRow.set_balance f) j m !! k
  = AccountRow.reserved_amount <$> m !! k.
Proof.
  rewrite lookup_alter. case_decide; [subst|done].
  by destruct (m !! k).
Qed.

Lemma balance_alter_reserved f (j k : nat) (m : gmap nat AccountRow.t) :
  AccountRow.balance <$> alter (AccountRow.set_reserved_amount f) j m !! k
  = AccountRow.balance <$> m !! k.
Proof.
  rewrite lookup_alter. case_decide; [subst|done].
  by destruct (m !! k).
Qed.

Lemma reserved_alter_reserved (d : Z) (j k : nat)
    (m : gmap nat AccountRow.t) :
  AccountRow.reserved_amount <$>
    alter (AccountRow.set_reserved_amount (λ x, x + d)%Z) j m !! k
  = (λ x, x + (if decide (k = j) then d else 0))%Z <$>
      (AccountRow.reserved_amount <$> m !! k).
Proof.
  rewrite lookup_alter.
  destruct (decide (j = k)) as [->|Hne].
  - rewrite decide_True by done. by destruct (m !! k).
  - rewrite decide_False by done.
    destruct (m !! k); simpl; [|done]. f_equal. lia.
Qed.

Lemma settled_reserved dbt fa s2 s3 link k :
  reserved_of (settled dbt fa s2 s3 link) k
  = (λ x, x + (if decide (k = Account.pk fa)
               then - ScheduledPayment.amount s3 else 0))%Z
      <$> reserved_of dbt k.
Proof.
  unfold reserved_of, settled. simpl.
  rewrite <- reserved_alter_reserved.
  rewrite (alter_ext
             (AccountRow.set_reserved_amount
                (λ x, x - ScheduledPayment.amount s3)%Z)
             (AccountRow.set_reserved_amount
                (λ x, x + - ScheduledPayment.amount s3)%Z)); [done|].
  intros r _. reflexivity.
Qed.

Lemma settled_balance dbt fa s2 s3 link k :
  balance_of (settled dbt fa s2 s3 link) k = balance_of dbt k.
Proof. unfold balance_of, settled. simpl. apply balance_alter_reserved. Qed.

Lemma settled_rows dbt fa s2 s3 link :
  transfer_scheduledpayment (settled dbt fa s2 s3 link)
  = ScheduledPayment.updated_rows s3 [ScheduledPayment.f_status]
      (ScheduledPayment.updated_rows s2 link
         (transfer_scheduledpayment dbt)).
Proof. reflexivity. Qed.

Lemma settled_row dbt fa s2 s3 link r :
  ScheduledPayment.pk s2 = ScheduledPayment.pk s3 →
  scheduled_row dbt (ScheduledPayment.pk s3) = Some r →
  scheduled_row (settled dbt fa s2 s3 link) (ScheduledPayment.pk s3)
  = Some (ScheduledPaymentRow.set_status (ScheduledPayment.status s3)
            (foldr (ScheduledPayment.write_field s2) r link)).
Proof.
  intros Hpk Hr. unfold scheduled_row in *. rewrite settled_rows.
  rewrite (find_updated_rows s3 [ScheduledPayment.f_status] _
             (foldr (ScheduledPayment.write_field s2) r link)); [done|].
  rewrite <- Hpk in *. by apply find_updated_rows.
Qed.

(** Settling or cancelling the one PENDING row of a payment removes its
    amount from the contributions of its from-account, and changes no
    other account's. *)
Lemma settled_contributions dbt fa s2 s3 link r k :
  NoDup (ScheduledPaymentRow.pk <$> transfer_scheduledpayment dbt) →
  ScheduledPayment.pk s2 = ScheduledPayment.pk s3 →
  scheduled_row dbt (ScheduledPayment.pk s3) = Some r →
  ScheduledPaymentRow.status r = PENDING →
  ScheduledPayment.status s3 ≠ PENDING →
  ScheduledPaymentRow.from_account_id r = Account.pk fa →
  ScheduledPaymentRow.amount r = ScheduledPayment.amount s3 →
  (link = [] ∨ link = [ScheduledPayment.f_transfer]) →
  foldr Z.add 0%Z
    (contribution k <$> transfer_scheduledpayment (settled dbt fa s2 s3 link))
  = (foldr Z.add 0%Z (contribution k <$> transfer_scheduledpayment dbt)
     + (if decide (k = Account.pk fa)
        then - ScheduledPayment.amount s3 else 0))%Z.
Proof.
  intros Hnd Hpk Hr Hpending Hfinal Hfrom Hamount Hlink.
  rewrite settled_rows.
  pose proof (find_row_elem_of _ _ _ Hr) as [Hin Hrpk].
  set (r1 := foldr (ScheduledPayment.write_field s2) r link).
  assert (Hr1 : snd <$> list_find
            (λ x, ScheduledPaymentRow.pk x = ScheduledPayment.pk s3)
            (ScheduledPayment.updated_rows s2 link
               (transfer_scheduledpayment dbt)) = Some r1).
  { rewrite <- Hpk. apply find_updated_rows. by rewrite Hpk. }
  pose proof (find_row_elem_of _ _ _ Hr1) as [Hin1 Hr1pk].
  rewrite (contributions_updated_rows k s3 _ _ r1);
    [|by rewrite updated_rows_pk|done|done].
  rewrite (contributions_updated_rows k s2 link _ r);
    [|done|done|congruence].
  fold r1.
  assert (Hc1 : contribution k r1 = contribution k r).
  { unfold r1. by destruct Hlink as [-> | ->]. }
  assert (Hc3 : contribution k
            (foldr (ScheduledPayment.write_field s3) r1
                   [ScheduledPayment.f_status]) = 0%Z).
  { unfold contribution. simpl. rewrite decide_False; [done|].
    by intros [_ ?]. }
  rewrite Hc1, Hc3. unfold contribution.
  destruct (decide (k = Account.pk fa)) as [->|Hne].
  - rewrite decide_True by done. lia.
  - rewrite decide_False by (intros [? _]; congruence). lia.
Qed.

(** ** Claims about settlement *)

(** C3. Settling a stored PENDING payment (amount not negative, both
    accounts stored, no transfer linked yet) succeeds and ends in exactly
    one of two ways.  Either the transfer succeeded: the status is DONE,
    on the instance and in the row, and the Transfer produced is linked.
    Or the transfer raised [InsufficientBalance]: the status is FAILED,
    no Transfer is linked or recorded, and no balance changed.  In both
    cases the same atomic block has decreased the stored reserved_amount
    of the from-account by the amount of the payment, once. *)
Theorem create_transfer_settles
    (self : ScheduledPayment.t) (r : ScheduledPaymentRow.t)
    (db : Database) :
  stored_instance db self r →
  ScheduledPayment.status self = PENDING →
  ScheduledPayment.transfer self = None →
  ScheduledPaymentRow.transfer_id r = None →
  (0 ≤ ScheduledPayment.amount self)%Z →
  is_Some (account_account db !!
             ScheduledPayment.related_id (ScheduledPayment.from_account self)) →
  is_Some (account_account db !!
             ScheduledPayment.related_id (ScheduledPayment.to_account self)) →
  ∃ db' self' fa ta res,
    ScheduledPayment.create_transfer self db = (db', inr self')
    ∧ ScheduledPayment.resolve (ScheduledPayment.from_account self) db
      = (db, inr fa)
    ∧ ScheduledPayment.resolve (ScheduledPayment.to_account self) db
      = (db, inr ta)
    ∧ reserved_of db (Account.pk fa) = Some res
    ∧ reserved_of db' (Account.pk fa)
      = Some (res - ScheduledPayment.amount self)%Z
    ∧ scheduled_row db' (ScheduledPayment.pk self)
      = Some (ScheduledPaymentRow.set_status (ScheduledPayment.status self')
                (ScheduledPaymentRow.set_transfer_id
                   (TransferRow.pk <$> ScheduledPayment.transfer self') r))
    ∧ ((ScheduledPayment.status self' = DONE
        ∧ ∃ dbt tr,
            Transfer.do_transfer fa ta (ScheduledPayment.amount self) db
              = (dbt, inr tr)
            ∧ ScheduledPayment.transfer self' = Some tr
            ∧ transfer_transfer db' = transfer_transfer db ++ [tr])
       ∨ (ScheduledPayment.status self' = FAILED
          ∧ Transfer.do_transfer fa ta (ScheduledPayment.amount self) db
            = (db, inl InsufficientBalance)
          ∧ ScheduledPayment.transfer self' = None
          ∧ transfer_transfer db' = transfer_transfer db
          ∧ ∀ k, balance_of db' k = balance_of db k))
    ∧ ¬ (ScheduledPayment.status self' = DONE
         ∧ ScheduledPayment.status self' = FAILED).
Proof.
  intros (Hrow & Hfrom & Hto & Hamount & Hstatus) Hpending Hnone Hnolink
    Hnn Hfs Hts.
  destruct (resolve_stored _ db Hfs) as (fa & Hfa & Hfapk).
  destruct (resolve_stored _ db Hts) as (ta & Hta & Htapk).
  assert (Hex : Exists (λ x, ScheduledPaymentRow.pk x
                             = ScheduledPayment.pk self)
                       (transfer_scheduledpayment db)).
  { apply find_row_elem_of in Hrow as [Hin Hpk].
    apply Exists_exists. eauto. }
  rewrite <- Hfapk in Hfs. rewrite <- Htapk in Hts.
  destruct Hfs as [rf Hrf].
  pose proof (create_transfer_unfold self db fa ta Hfa Hta) as Hct.
  cbv zeta in Hct.
  rewrite do_transfer_unfold in Hct.
  pose proof (do_transfer_unfold fa ta (ScheduledPayment.amount self) db)
    as Hdt.
  apply Z.ltb_ge in Hnn. rewrite Hnn in Hct, Hdt.
  destruct (Account.balance fa <? ScheduledPayment.amount self)%Z eqn:Hbal.
  - (* the transfer raises InsufficientBalance *)
    rewrite decide_True in Hct by done.
    eexists _, _, fa, ta, (AccountRow.reserved_amount rf).
    split; [exact Hct|]. split; [done|]. split; [done|].
    split; [unfold reserved_of; by rewrite Hrf|].
    split.
    { rewrite settled_reserved. unfold reserved_of. rewrite Hrf. simpl.
      rewrite decide_True by done. f_equal; lia. }
    split.
    { etrans;
        [exact (settled_row db fa
                  (ScheduledPayment.set_to_account ta
                     (ScheduledPayment.set_from_account fa self))
                  (ScheduledPayment.set_status FAILED
                     (ScheduledPayment.set_to_account ta
                        (ScheduledPayment.set_from_account fa self)))
                  [] r eq_refl Hrow)|].
      simpl. rewrite Hnone. simpl.
      f_equal. destruct r. simpl in *. by subst. }
    split; [|simpl; by intros [? ?]].
    right. simpl. split_and!; try done.
    intros k. apply settled_balance.
  - (* the transfer succeeds *)
    rewrite decide_True in Hct, Hdt by (split; [by eexists|done]).
    cbv zeta in Hct. simpl in Hct.
    rewrite decide_True in Hct by done.
    eexists _, _, fa, ta, (AccountRow.reserved_amount rf).
    split; [exact Hct|]. split; [done|]. split; [done|].
    split; [unfold reserved_of; by rewrite Hrf|].
    split.
    { rewrite settled_reserved. unfold reserved_of. simpl.
      rewrite !reserved_alter_balance, Hrf. simpl.
      rewrite decide_True by done. f_equal; lia. }
    split.
    { exact (settled_row _ fa
               (ScheduledPayment.set_transfer (Some _)
                  (ScheduledPayment.set_to_account ta
                     (ScheduledPayment.set_from_account fa self)))
               (ScheduledPayment.set_status DONE
                  (ScheduledPayment.set_transfer (Some _)
                     (ScheduledPayment.set_to_account ta
                        (ScheduledPayment.set_from_account fa self))))
               [ScheduledPayment.f_transfer] r eq_refl Hrow). }
    split; [|simpl; by intros [? ?]].
    left. simpl. split; [done|].
    eexists _, _. split; [exact Hdt|]. done.
Qed.

Lemma create_transfer_settles_witness :
  stored_instance db_scheduled payment1 payment1_row
  ∧ ScheduledPayment.status payment1 = PENDING
  ∧ ScheduledPayment.transfer payment1 = None
  ∧ ScheduledPaymentRow.transfer_id payment1_row = None
  ∧ (0 ≤ ScheduledPayment.amount payment1)%Z
  ∧ ∃ db' self',
      ScheduledPayment.create_transfer payment1 db_scheduled = (db', inr self')
      ∧ reserved_of db_scheduled 1 = Some 100%Z
      ∧ reserved_of db' 1 = Some 0%Z
      ∧ ScheduledPayment.status self' = DONE.
Proof.
  assert (Hs : stored_instance db_scheduled payment1 payment1_row)
    by (repeat split; reflexivity).
  assert (Hnn : (0 ≤ ScheduledPayment.amount payment1)%Z) by (simpl; lia).
  split; [exact Hs|]. split; [reflexivity|]. split; [reflexivity|].
  split; [reflexivity|]. split; [exact Hnn|].
  destruct (create_transfer_settles payment1 payment1_row db_scheduled Hs
              eq_refl eq_refl eq_refl Hnn)
    as (db' & self' & fa & ta & res & Hrun & Hfa & Hta & Hres & Hres' & _
        & Hcases & _).
  { eexists; reflexivity. }
  { eexists; reflexivity. }
  injection Hfa as <-. injection Hta as <-.
  injection Hres as <-.
  exists db', self'. split; [exact Hrun|]. split; [reflexivity|].
  split; [exact Hres'|].
  destruct Hcases as [[Hdone _]|(_ & Hfail & _)]; [exact Hdone|].
  vm_compute in Hfail. discriminate Hfail.
Defined.

(** ** The reservation invariant under the lifecycle operations *)

Lemma reserved_consistent_shift db db' (f : nat) (d : Z) :
  reserved_consistent db →
  (∀ k, reserved_of db' k
        = (λ x, x + (if decide (k = f) then d else 0))%Z
            <$> reserved_of db k) →
  (∀ k, foldr Z.add 0%Z (contribution k <$> transfer_scheduledpayment db')
        = (foldr Z.add 0%Z (contribution k <$> transfer_scheduledpayment db)
           + (if decide (k = f) then d else 0))%Z) →
  reserved_consistent db'.
Proof.
  intros Hc Hres Hsum k r' Hk'.
  specialize (Hres k). unfold reserved_of in Hres. rewrite Hk' in Hres.
  destruct (account_account db !! k) as [r|] eqn:Hk; [|done].
  simpl in Hres. injection Hres as Hres.
  rewrite reserved_amount_as_contributions, Hsum,
    <- reserved_amount_as_contributions, <- (Hc k r Hk).
  done.
Qed.

Lemma create_scheduled_transfer_invariant from_account to_account amount
    on_date db db' sp :
  well_formed db → reserved_consistent db →
  ScheduledPayment.create_scheduled_transfer from_account to_account amount
    on_date db = (db', inr sp) →
  well_formed db' ∧ reserved_consistent db'.
Proof.
  intros [Hnd Hseq] Hc. rewrite create_scheduled_transfer_unfold.
  repeat case_match; try done. cbv zeta. intros [= <- _]. split.
  - split; simpl.
    + rewrite fmap_app. apply NoDup_app. split; [done|]. split.
      * intros k Hk Hk'. apply list_elem_of_singleton in Hk'. subst k.
        apply list_elem_of_fmap in Hk as (r & Hpk & Hr).
        rewrite Forall_forall in Hseq. specialize (Hseq r Hr).
        simpl in *. lia.
      * apply NoDup_singleton.
    + apply Forall_app. split.
      * eapply Forall_impl; [exact Hseq|]. intros r Hr. simpl in Hr. lia.
      * apply Forall_singleton. simpl. lia.
  - apply (reserved_consistent_shift db _ (Account.pk from_account) amount);
      [done| |].
    + intros k. unfold reserved_of. simpl. apply reserved_alter_reserved.
    + intros k. simpl. rewrite contributions_app. f_equal.
      simpl. unfold contribution. simpl.
      destruct (decide (k = Account.pk from_account)) as [->|Hne].
      * rewrite decide_True by done. lia.
      * rewrite decide_False by (intros [? _]; congruence). lia.
Qed.


Lemma settled_invariant db dbt fa s2 s3 link r :
  same_reservations db dbt →
  well_formed db → reserved_consistent db →
  ScheduledPayment.pk s2 = ScheduledPayment.pk s3 →
  scheduled_row db (ScheduledPayment.pk s3) = Some r →
  ScheduledPaymentRow.status r = PENDING →
  ScheduledPayment.status s3 ≠ PENDING →
  ScheduledPaymentRow.from_account_id r = Account.pk fa →
  ScheduledPaymentRow.amount r = ScheduledPayment.amount s3 →
  (link = [] ∨ link = [ScheduledPayment.f_transfer]) →
  well_formed (settled dbt fa s2 s3 link)
  ∧ reserved_consistent (settled dbt fa s2 s3 link).
Proof.
  intros (Hrows & Hseq & Hres) [Hnd Hle] Hc Hpk Hr Hpending Hfinal Hfrom
    Hamount Hlink.
  split.
  - split.
    + rewrite settled_rows, !updated_rows_pk, Hrows. done.
    + assert (Hs : scheduledpayment_seq (settled dbt fa s2 s3 link)
                   = scheduledpayment_seq db) by exact Hseq.
      rewrite Hs.
      apply (proj1 (Forall_fmap ScheduledPaymentRow.pk
                      (λ k, k ≤ scheduledpayment_seq db) _)).
      rewrite settled_rows, !updated_rows_pk, Hrows.
      apply (proj2 (Forall_fmap ScheduledPaymentRow.pk
                      (λ k, k ≤ scheduledpayment_seq db) _)).
      exact Hle.
  - apply (reserved_consistent_shift db _ (Account.pk fa)
             (- ScheduledPayment.amount s3)); [done| |].
    + intros k. by rewrite settled_reserved, Hres.
    + intros k. rewrite <- Hrows.
      apply (settled_contributions dbt fa s2 s3 link r k); try done.
      * by rewrite Hrows.
      * unfold scheduled_row in *. by rewrite Hrows.
Qed.

Lemma do_transfer_same_reservations from_account to_account amount db dbt tr :
  Transfer.do_transfer from_account to_account amount db = (dbt, inr tr) →
  same_reservations db dbt.
Proof.
  intros Hrun.
  apply do_transfer_inr in Hrun as (_ & _ & _ & _ & _ & ->).
  split; [done|]. split; [done|].
  intros k. unfold reserved_of. simpl. by rewrite !reserved_alter_balance.
Qed.

Lemma same_reservations_refl db : same_reservations db db.
Proof. by repeat split. Qed.

Lemma create_transfer_inr_resolve self db db' self' :
  ScheduledPayment.create_transfer self db = (db', inr self') →
  ∃ fa ta,
    ScheduledPayment.resolve (ScheduledPayment.from_account self) db
      = (db, inr fa)
    ∧ ScheduledPayment.resolve (ScheduledPayment.to_account self) db
      = (db, inr ta).
Proof.
  unfold ScheduledPayment.create_transfer, atomic,
    ScheduledPayment.create_transfer_body.
  unfold bind at 1.
  destruct (ScheduledPayment.resolve (ScheduledPayment.from_account self) db)
    as [d1 [e|fa]] eqn:H1; [done|].
  destruct (resolve_inr _ _ _ _ H1) as [-> _].
  unfold bind at 1.
  destruct (ScheduledPayment.resolve (ScheduledPayment.to_account self) db)
    as [d2 [e|ta]] eqn:H2; [done|].
  destruct (resolve_inr _ _ _ _ H2) as [-> _].
  intros _. by exists fa, ta.
Qed.

Lemma cancel_inr_resolve self db db' self' :
  ScheduledPayment.cancel self db = (db', inr self') →
  ∃ fa,
    ScheduledPayment.resolve (ScheduledPayment.from_account self) db
      = (db, inr fa).
Proof.
  unfold ScheduledPayment.cancel, atomic, ScheduledPayment.cancel_body.
  unfold bind at 1.
  destruct (ScheduledPayment.resolve (ScheduledPayment.from_account self) db)
    as [d1 [e|fa]] eqn:H1; [done|].
  destruct (resolve_inr _ _ _ _ H1) as [-> _].
  intros _. by exists fa.
Qed.

(** Settling an instance that stands for a stored PENDING row keeps the
    invariant. *)
Lemma create_transfer_invariant self r db db' self' :
  well_formed db → reserved_consistent db →
  stored_instance db self r →
  ScheduledPaymentRow.status r = PENDING →
  ScheduledPayment.create_transfer self db = (db', inr self') →
  well_formed db' ∧ reserved_consistent db'.
Proof.
  intros Hwf Hc (Hrow & Hfrom & _ & Hamount & _) Hpending Hrun.
  destruct (create_transfer_inr_resolve _ _ _ _ Hrun)
    as (fa & ta & Hfa & Hta).
  destruct (resolve_inr _ _ _ _ Hfa) as [_ Hfapk].
  rewrite (create_transfer_unfold self db fa ta Hfa Hta) in Hrun.
  cbv zeta in Hrun.
  destruct (Transfer.do_transfer fa ta (ScheduledPayment.amount self) db)
    as [dbt [e|tr]] eqn:Hdt.
  - destruct e; try done. case_decide; [|done].
    injection Hrun as <- _.
    apply (settled_invariant db db fa _ _ [] r);
      first [ apply same_reservations_refl | done | congruence | by left ].
  - case_decide; [|done]. injection Hrun as <- _.
    apply (settled_invariant db dbt fa _ _ [ScheduledPayment.f_transfer] r);
      first [ by eapply do_transfer_same_reservations | done | congruence
            | by right ].
Qed.

(** Cancelling an instance that stands for a stored PENDING row keeps
    the invariant. *)
Lemma cancel_invariant self r db db' self' :
  well_formed db → reserved_consistent db →
  stored_instance db self r →
  ScheduledPaymentRow.status r = PENDING →
  ScheduledPayment.cancel self db = (db', inr self') →
  well_formed db' ∧ reserved_consistent db'.
Proof.
  intros Hwf Hc (Hrow & Hfrom & _ & Hamount & _) Hpending Hrun.
  destruct (cancel_inr_resolve _ _ _ _ Hrun) as (fa & Hfa).
  destruct (resolve_inr _ _ _ _ Hfa) as [_ Hfapk].
  rewrite (cancel_unfold self db fa Hfa) in Hrun. cbv zeta in Hrun.
  case_decide; [|done]. injection Hrun as <- _.
  apply (settled_invariant db db fa _ _ [] r);
    first [ apply same_reservations_refl | done | congruence | by left ].
Qed.

Lemma objects_get_stored (k : nat) db r :
  scheduled_row db k = Some r →
  ScheduledPayment.objects_get k db = (db, inr (ScheduledPayment.of_row db r))
  ∧ stored_instance db (ScheduledPayment.of_row db r) r.
Proof.
  intros Hrow. pose proof (find_row_elem_of _ _ _ Hrow) as [_ Hpk].
  unfold scheduled_row in Hrow. unfold ScheduledPayment.objects_get.
  destruct (list_find _ _) as [[i r']|] eqn:Hfind; [|done].
  simpl in Hrow. injection Hrow as ->. split; [done|].
  unfold stored_instance, scheduled_row. simpl. rewrite Hpk, Hfind. done.
Qed.

Lemma run_operation_invariant op db db' :
  well_formed db → reserved_consistent db →
  targets_pending op db = true →
  run_operation op db = (db', inr tt) →
  well_formed db' ∧ reserved_consistent db'.
Proof.
  intros Hwf Hc Htarget Hrun. destruct op as [f t a d|k|k]; simpl in *.
  - unfold bind in Hrun.
    destruct (ScheduledPayment.create_scheduled_transfer f t a d db)
      as [db1 [e|sp]] eqn:Hstep; [done|].
    injection Hrun as <-. by eapply create_scheduled_transfer_invariant.
  - destruct (scheduled_row db k) as [r|] eqn:Hrow; [|done].
    apply bool_decide_eq_true in Htarget.
    destruct (objects_get_stored k db r Hrow) as [Hget Hstored].
    unfold bind in Hrun. rewrite Hget in Hrun.
    destruct (ScheduledPayment.create_transfer _ db)
      as [db1 [e|sp]] eqn:Hstep; [done|].
    injection Hrun as <-. by eapply create_transfer_invariant.
  - destruct (scheduled_row db k) as [r|] eqn:Hrow; [|done].
    apply bool_decide_eq_true in Htarget.
    destruct (objects_get_stored k db r Hrow) as [Hget Hstored].
    unfold bind in Hrun. rewrite Hget in Hrun.
    destruct (ScheduledPayment.cancel _ db)
      as [db1 [e|sp]] eqn:Hstep; [done|].
    injection Hrun as <-. by eapply cancel_invariant.
Qed.

Lemma db0_well_formed : well_formed db0.
Proof. split; [apply NoDup_nil_2|apply Forall_nil_2]. Qed.

Lemma db0_reserved_consistent : reserved_consistent db0.
Proof.
  intros k r Hk. simpl. unfold db0 in Hk. simpl in Hk.
  apply lookup_insert_Some in Hk as [[<- <-]|[_ Hk]]; [done|].
  apply lookup_insert_Some in Hk as [[<- <-]|[_ Hk]]; [done|].
  by rewrite lookup_empty in Hk.
Qed.

(** C1 as written fails: cancelling twice succeeds twice, and the second
    cancellation releases a reservation that is no longer PENDING. *)
Lemma reserved_amount_double_release :
  well_formed db0 ∧ reserved_consistent db0
  ∧ ∃ db',
      run_operations cancel_twice db0 = (db', inr tt)
      ∧ reserved_of db' 1 = Some (-100)%Z
      ∧ Account.reserved_amount_for_scheduled_payment 1
          (transfer_scheduledpayment db') = 0%Z
      ∧ ¬ reserved_consistent db'.
Proof.
  split; [apply db0_well_formed|]. split; [apply db0_reserved_consistent|].
  pose (db' := (run_operations cancel_twice db0).1).
  assert (Hrun : run_operations cancel_twice db0 = (db', inr tt))
    by (vm_compute; reflexivity).
  assert (Hres : account_account db' !! 1
                 = Some (AccountRow.mk 123 1 1000 (-100)))
    by (vm_compute; reflexivity).
  exists db'. split; [exact Hrun|]. split.
  { unfold reserved_of. by rewrite Hres. }
  split; [vm_compute; reflexivity|].
  intros Hc. specialize (Hc 1 _ Hres). revert Hc.
  vm_compute. discriminate.
Qed.

(** C1, amended. From a well-formed store in which every account's
    reserved_amount equals the sum of the amounts of its PENDING
    scheduled payments, any sequence of successful schedule, settle and
    cancel operations in which each settle and cancel is applied to a
    payment that is PENDING at that moment leads to a store where the
    equality holds again for every account. *)
Theorem reserved_amount_invariant
    (ops : list operation) (db db' : Database) :
  well_formed db → reserved_consistent db →
  pending_only ops db = true →
  run_operations ops db = (db', inr tt) →
  well_formed db' ∧ reserved_consistent db'.
Proof.
  revert db. induction ops as [|op ops IH]; intros db Hwf Hc Hpending Hrun.
  - injection Hrun as <-. done.
  - simpl in Hpending. apply andb_true_iff in Hpending as [Htarget Hrest].
    unfold run_operations in Hrun. simpl in Hrun. unfold bind in Hrun.
    destruct (run_operation op db) as [db1 [e|[]]] eqn:Hstep; [done|].
    destruct (run_operation_invariant op db db1 Hwf Hc Htarget Hstep)
      as [Hwf1 Hc1].
    by apply (IH db1).
Qed.

Lemma reserved_amount_invariant_witness :
  well_formed db0 ∧ reserved_consistent db0
  ∧ pending_only schedule_settle_cancel db0 = true
  ∧ ∃ db',
      run_operations schedule_settle_cancel db0 = (db', inr tt)
      ∧ well_formed db' ∧ reserved_consistent db'.
Proof.
  assert (Hp : pending_only schedule_settle_cancel db0 = true)
    by (vm_compute; reflexivity).
  pose (db' := (run_operations schedule_settle_cancel db0).1).
  assert (Hrun : run_operations schedule_settle_cancel db0 = (db', inr tt))
    by (vm_compute; reflexivity).
  split; [apply db0_well_formed|]. split; [apply db0_reserved_consistent|].
  split; [exact Hp|]. exists db'. split; [exact Hrun|].
  exact (reserved_amount_invariant schedule_settle_cancel db0 db'
           db0_well_formed db0_reserved_consistent Hp Hrun).
Defined.

(** ** Claims about cancellation and deletion *)

(** C7 as written fails: cancelling a payment that is already CANCELED
    is not rejected, and the reservation is released a second time. *)
Lemma cancel_terminal_releases_again :
  ScheduledPayment.status payment1_canceled = CANCELED
  ∧ stored_instance db_canceled payment1_canceled payment1_canceled_row
  ∧ reserved_of db_canceled 1 = Some 0%Z
  ∧ ∃ db' self',
      ScheduledPayment.cancel payment1_canceled db_canceled
        = (db', inr self')
      ∧ reserved_of db' 1 = Some (-100)%Z
      ∧ ¬ (∃ e, ScheduledPayment.cancel payment1_canceled db_canceled
                = (db_canceled, inl e)).
Proof.
  split; [reflexivity|]. split; [repeat split; reflexivity|].
  split; [vm_compute; reflexivity|].
  pose (db' := (ScheduledPayment.cancel payment1_canceled db_canceled).1).
  exists db'. eexists. split; [vm_compute; reflexivity|].
  split; [vm_compute; reflexivity|].
  intros [e He]. vm_compute in He. discriminate He.
Qed.

(** What [cancel] does to an instance that stands for a stored row. *)
Lemma cancel_stored_instance
    (self : ScheduledPayment.t) (r : ScheduledPaymentRow.t)
    (db : Database) :
  stored_instance db self r →
  is_Some (account_account db !!
             ScheduledPayment.related_id (ScheduledPayment.from_account self)) →
  ∃ db' self' fa res,
    ScheduledPayment.cancel self db = (db', inr self')
    ∧ ScheduledPayment.resolve (ScheduledPayment.from_account self) db
      = (db, inr fa)
    ∧ ScheduledPayment.status self' = CANCELED
    ∧ scheduled_row db' (ScheduledPayment.pk self)
      = Some (ScheduledPaymentRow.set_status CANCELED r)
    ∧ reserved_of db (Account.pk fa) = Some res
    ∧ reserved_of db' (Account.pk fa)
      = Some (res - ScheduledPayment.amount self)%Z
    ∧ ScheduledPaymentRow.pk <$> transfer_scheduledpayment db'
      = ScheduledPaymentRow.pk <$> transfer_scheduledpayment db
    ∧ transfer_transfer db' = transfer_transfer db
    ∧ ∀ k, balance_of db' k = balance_of db k.
Proof.
  intros (Hrow & _) Hfs.
  destruct (resolve_stored _ db Hfs) as (fa & Hfa & Hfapk).
  rewrite <- Hfapk in Hfs. destruct Hfs as [rf Hrf].
  pose proof (cancel_unfold self db fa Hfa) as Hc. cbv zeta in Hc.
  rewrite decide_True in Hc.
  2:{ apply find_row_elem_of in Hrow as [Hin Hpk].
      apply Exists_exists. eauto. }
  eexists _, _, fa, (AccountRow.reserved_amount rf).
  split; [exact Hc|]. split; [done|]. split; [done|].
  split.
  { exact (settled_row db fa
             (ScheduledPayment.set_status CANCELED
                (ScheduledPayment.set_from_account fa self))
             (ScheduledPayment.set_status CANCELED
                (ScheduledPayment.set_from_account fa self))
             [] r eq_refl Hrow). }
  split; [unfold reserved_of; by rewrite Hrf|].
  split.
  { rewrite settled_reserved. unfold reserved_of. rewrite Hrf. simpl.
    rewrite decide_True by done. f_equal; lia. }
  split; [by rewrite settled_rows, !updated_rows_pk|].
  split; [done|]. intros k. apply settled_balance.
Qed.

(** C7, amended. [cancel] does not look at the status: on a stored
    payment in any status, PENDING or already DONE, CANCELED or FAILED,
    whose from-account is stored, it succeeds, sets the status to
    CANCELED on the instance and in the row, and decreases the stored
    reserved_amount of the from-account by the amount of the payment.
    The row stays in the table; balances and transfers are untouched. *)
Theorem cancel_releases
    (self : ScheduledPayment.t) (r : ScheduledPaymentRow.t)
    (db : Database) :
  stored_instance db self r →
  is_Some (account_account db !!
             ScheduledPayment.related_id (ScheduledPayment.from_account self)) →
  ∃ db' self' fa res,
    ScheduledPayment.cancel self db = (db', inr self')
    ∧ ScheduledPayment.resolve (ScheduledPayment.from_account self) db
      = (db, inr fa)
    ∧ ScheduledPayment.status self' = CANCELED
    ∧ scheduled_row db' (ScheduledPayment.pk self)
      = Some (ScheduledPaymentRow.set_status CANCELED r)
    ∧ reserved_of db (Account.pk fa) = Some res
    ∧ reserved_of db' (Account.pk fa)
      = Some (res - ScheduledPayment.amount self)%Z
    ∧ ScheduledPaymentRow.pk <$> transfer_scheduledpayment db'
      = ScheduledPaymentRow.pk <$> transfer_scheduledpayment db
    ∧ transfer_transfer db' = transfer_transfer db
    ∧ ∀ k, balance_of db' k = balance_of db k.
Proof. exact (cancel_stored_instance self r db). Qed.

Lemma cancel_releases_witness :
  stored_instance db_canceled payment1_canceled payment1_canceled_row
  ∧ is_Some (account_account db_canceled !!
               ScheduledPayment.related_id
                 (ScheduledPayment.from_account payment1_canceled))
  ∧ ∃ db' self',
      ScheduledPayment.cancel payment1_canceled db_canceled
        = (db', inr self')
      ∧ ScheduledPayment.status self' = CANCELED
      ∧ reserved_of db' 1 = Some (0 - 100)%Z.
Proof.
  assert (Hs : stored_instance db_canceled payment1_canceled
                 payment1_canceled_row) by (repeat split; reflexivity).
  assert (Hf : is_Some (account_account db_canceled !!
               ScheduledPayment.related_id
                 (ScheduledPayment.from_account payment1_canceled)))
    by (eexists; vm_compute; reflexivity).
  split; [exact Hs|]. split; [exact Hf|].
  destruct (cancel_releases payment1_canceled payment1_canceled_row
              db_canceled Hs Hf)
    as (db' & self' & fa & res & Hrun & Hfa & Hst & _ & Hres & Hres' & _).
  vm_compute in Hfa. injection Hfa as <-.
  vm_compute in Hres. injection Hres as <-.
  exists db', self'. split; [exact Hrun|]. split; [exact Hst|exact Hres'].
Defined.

(** C6, at the failing input. [ScheduledPayment.objects.pending()] is
    built on [super().get_queryset()], a stock queryset: its [delete]
    does not raise, removes the selected rows and leaves the reservation
    of the removed PENDING payment on the account. *)
Theorem pending_queryset_delete_removes_rows :
  ScheduledPaymentManager.cls (ScheduledPaymentManager.pending (λ _, true))
    = ScheduledPaymentManager.QuerySet
  ∧ ScheduledPaymentManager.rows
      (ScheduledPaymentManager.pending (λ _, true)) db_scheduled
    = [payment1_row]
  ∧ reserved_of db_scheduled 1 = Some 100%Z
  ∧ ∃ db',
      ScheduledPaymentManager.delete
        (ScheduledPaymentManager.pending (λ _, true)) db_scheduled
        = (db', inr 1)
      ∧ transfer_scheduledpayment db' = []
      ∧ reserved_of db' 1 = Some 100%Z.
Proof.
  split; [reflexivity|]. split; [vm_compute; reflexivity|].
  split; [vm_compute; reflexivity|].
  eexists. split; [vm_compute; reflexivity|].
  split; vm_compute; reflexivity.
Qed.

(** ** The scheduler tick *)

Lemma atomic_inl {A} (m : M A) db db' e :
  atomic m db = (db', inl e) → db' = db.
Proof.
  unfold atomic. destruct (m db) as [d [e'|a]]; [|done]. by intros [= <- _].
Qed.

Lemma for_each_app_inl {A} (f : A → M unit) before x after db db1 db2 e :
  for_each f before db = (db1, inr tt) →
  f x db1 = (db2, inl e) →
  for_each f (before ++ x :: after) db = (db2, inl e).
Proof.
  revert db. induction before as [|y before IH]; intros db Hbefore Hx.
  - injection Hbefore as <-. simpl. unfold bind. by rewrite Hx.
  - simpl in *. unfold bind in *.
    destruct (f y db) as [d [e'|[]]]; [done|]. by apply IH.
Qed.

Lemma run_transfers_unfold now db :
  run_transfers_by_scheduled_payments now db
  = for_each settle_item
      (ScheduledPayment.of_row db
         <$> ScheduledPaymentManager.rows (due_pending now) db) db.
Proof. reflexivity. Qed.

(** C8 as written fails: the first due payment makes [create_transfer]
    raise [NegativeAmountException]; the tick ends with that exception
    and the second due payment, which would settle to DONE on its own,
    is left PENDING. *)
Lemma tick_skips_remaining_items :
  ScheduledPaymentManager.rows (due_pending 10) db_due
    = [negative_row; due_row]
  ∧ run_transfers_by_scheduled_payments 10 db_due
    = (db_due, inl NegativeAmountException)
  ∧ scheduled_row db_due 2 = Some due_row
  ∧ ScheduledPaymentRow.status due_row = PENDING
  ∧ ∃ db' self',
      ScheduledPayment.create_transfer
        (ScheduledPayment.of_row db_due due_row) db_due = (db', inr self')
      ∧ ScheduledPayment.status self' = DONE.
Proof.
  split; [vm_compute; reflexivity|]. split; [vm_compute; reflexivity|].
  split; [reflexivity|]. split; [reflexivity|].
  eexists _, _. split; [vm_compute; reflexivity|reflexivity].
Qed.

(** C8, amended. An exception raised while settling one item of a tick
    (any exception other than the [InsufficientBalance] that
    [create_transfer] absorbs) leaves [run_transfers_by_scheduled_payments]:
    the tick ends with that exception, the store is the one the items
    before it left (the failing item's own atomic block is rolled back),
    and the items after it are not settled in that tick. *)
Theorem tick_stops_at_first_exception
    (now : Z) (db db1 db2 : Database)
    (before after : list ScheduledPayment.t) (x : ScheduledPayment.t)
    (e : Exception) :
  ScheduledPayment.fetch (due_pending now) db
    = (db, inr (before ++ x :: after)) →
  for_each settle_item before db = (db1, inr tt) →
  ScheduledPayment.create_transfer x db1 = (db2, inl e) →
  db2 = db1
  ∧ run_transfers_by_scheduled_payments now db = (db1, inl e)
  ∧ run_transfers_by_scheduled_payments now db
    = for_each settle_item (before ++ [x]) db.
Proof.
  intros Hfetch Hbefore Hx.
  assert (db2 = db1) as -> by (by eapply atomic_inl).
  assert (Hitem : settle_item x db1 = (db1, inl e)).
  { unfold settle_item, bind. by rewrite Hx. }
  split; [done|].
  rewrite run_transfers_unfold.
  unfold ScheduledPayment.fetch in Hfetch. injection Hfetch as ->.
  rewrite (for_each_app_inl settle_item before x after db db1 db1 e)
    by done.
  split; [done|]. symmetry.
  by apply (for_each_app_inl settle_item before x [] db db1 db1 e).
Qed.

Lemma tick_stops_at_first_exception_witness :
  ScheduledPayment.fetch (due_pending 10) db_due
    = (db_due, inr ([] ++ ScheduledPayment.of_row db_due negative_row
                       :: [ScheduledPayment.of_row db_due due_row]))
  ∧ for_each settle_item [] db_due = (db_due, inr tt)
  ∧ ScheduledPayment.create_transfer
      (ScheduledPayment.of_row db_due negative_row) db_due
    = (db_due, inl NegativeAmountException)
  ∧ run_transfers_by_scheduled_payments 10 db_due
    = (db_due, inl NegativeAmountException).
Proof.
  assert (H1 : ScheduledPayment.fetch (due_pending 10) db_due
    = (db_due, inr ([] ++ ScheduledPayment.of_row db_due negative_row
                       :: [ScheduledPayment.of_row db_due due_row])))
    by (vm_compute; reflexivity).
  assert (H2 : for_each settle_item [] db_due = (db_due, inr tt))
    by reflexivity.
  assert (H3 : ScheduledPayment.create_transfer
      (ScheduledPayment.of_row db_due negative_row) db_due
    = (db_due, inl NegativeAmountException)) by (vm_compute; reflexivity).
  split; [exact H1|]. split; [exact H2|]. split; [exact H3|].
  exact (proj1 (proj2 (tick_stops_at_first_exception 10 db_due db_due db_due
                         [] [ScheduledPayment.of_row db_due due_row]
                         (ScheduledPayment.of_row db_due negative_row)
                         NegativeAmountException H1 H2 H3))).
Defined.

(** * Further properties of the code *)

(** ** [create_scheduled_transfer]: negative amounts *)

(** A negative amount is rejected with [NegativeAmountException] before
    the balance is looked at and before any update: the exception is the
    same whatever the instance holds, and the body returns the store it
    was given.  No other input raises that exception. *)
Theorem create_scheduled_transfer_negative
    (from_account to_account : Account.t) (amount : Decimal) (on_date : Z)
    (db : Database) :
  ((ScheduledPayment.create_scheduled_transfer from_account to_account
      amount on_date db).2 = inl NegativeAmountException
   ↔ (amount < 0)%Z)
  ∧ ((amount < 0)%Z →
     ScheduledPayment.create_scheduled_transfer_body from_account to_account
       amount on_date db = (db, inl NegativeAmountException)
     ∧ ScheduledPayment.create_scheduled_transfer from_account to_account
         amount on_date db = (db, inl NegativeAmountException)).
Proof.
  rewrite create_scheduled_transfer_unfold.
  unfold ScheduledPayment.create_scheduled_transfer_body.
  destruct (amount <? 0)%Z eqn:Hneg.
  - apply Z.ltb_lt in Hneg. by repeat split.
  - apply Z.ltb_ge in Hneg. split; [|lia].
    split; [|lia]. repeat case_match; done.
Qed.

Lemma create_scheduled_transfer_negative_witness :
  (-1 < 0)%Z
  ∧ ScheduledPayment.create_scheduled_transfer account1 account2 (-1) 10 db0
    = (db0, inl NegativeAmountException).
Proof.
  split; [lia|].
  apply (proj2 (create_scheduled_transfer_negative account1 account2 (-1) 10
                  db0)).
  lia.
Defined.

(** ** [ScheduledPayment.delete] *)

(** [delete] on a stored payment removes nothing: the table keeps the
    same keys in the same order, the row of the payment is still found
    under its key, now with status CANCELED, and the instance carries
    CANCELED. *)
Theorem delete_cancels_and_keeps_row
    (self : ScheduledPayment.t) (r : ScheduledPaymentRow.t)
    (db : Database) :
  stored_instance db self r →
  is_Some (account_account db !!
             ScheduledPayment.related_id (ScheduledPayment.from_account self)) →
  ∃ db' self',
    ScheduledPayment.delete self db = (db', inr self')
    ∧ ScheduledPayment.status self' = CANCELED
    ∧ scheduled_row db' (ScheduledPayment.pk self)
      = Some (ScheduledPaymentRow.set_status CANCELED r)
    ∧ ScheduledPaymentRow.pk <$> transfer_scheduledpayment db'
      = ScheduledPaymentRow.pk <$> transfer_scheduledpayment db
    ∧ length (transfer_scheduledpayment db')
      = length (transfer_scheduledpayment db).
Proof.
  intros Hs Hf.
  destruct (cancel_stored_instance self r db Hs Hf)
    as (db' & self' & fa & res & Hrun & _ & Hst & Hrow & _ & _ & Hpks & _).
  exists db', self'. split; [exact Hrun|]. split; [done|]. split; [done|].
  split; [done|].
  by rewrite <- (length_fmap ScheduledPaymentRow.pk), Hpks, length_fmap.
Qed.

Lemma delete_cancels_and_keeps_row_witness :
  stored_instance db_scheduled payment1 payment1_row
  ∧ is_Some (account_account db_scheduled !!
               ScheduledPayment.related_id
                 (ScheduledPayment.from_account payment1))
  ∧ ∃ db' self',
      ScheduledPayment.delete payment1 db_scheduled = (db', inr self')
      ∧ scheduled_row db' 1 = Some payment1_canceled_row
      ∧ length (transfer_scheduledpayment db') = 1.
Proof.
  assert (Hs : stored_instance db_scheduled payment1 payment1_row)
    by (repeat split; reflexivity).
  assert (Hf : is_Some (account_account db_scheduled !!
               ScheduledPayment.related_id
                 (ScheduledPayment.from_account payment1)))
    by (eexists; reflexivity).
  split; [exact Hs|]. split; [exact Hf|].
  destruct (delete_cancels_and_keeps_row payment1 payment1_row db_scheduled
              Hs Hf) as (db' & self' & Hrun & _ & Hrow & _ & Hlen).
  exists db', self'. split; [exact Hrun|]. split; [exact Hrow|exact Hlen].
Defined.

(** ** The manager and its querysets *)

Lemma filters_keep_class kwargs_list qs :
  ScheduledPaymentManager.cls
    (foldr ScheduledPaymentManager.filter_ qs kwargs_list)
  = ScheduledPaymentManager.cls qs.
Proof. induction kwargs_list as [|kw l IH]; [done|]. exact IH. Qed.

(** Whatever filters are chained on [ScheduledPayment.objects.all()],
    [delete] on the result raises [DeleteEntityException] and the store
    is exactly as before: no row is removed or changed. *)
Theorem queryset_delete_guarded
    (kwargs_list : list (ScheduledPaymentRow.t → bool)) (db : Database) :
  ScheduledPaymentManager.delete
    (foldr ScheduledPaymentManager.filter_ ScheduledPaymentManager.all
           kwargs_list) db
  = (db, inl DeleteEntityException).
Proof.
  unfold ScheduledPaymentManager.delete. by rewrite filters_keep_class.
Qed.

Lemma elem_of_status_rows (s : Status)
    (kwargs : ScheduledPaymentRow.t → bool) (db : Database)
    (r : ScheduledPaymentRow.t) :
  r ∈ ScheduledPaymentManager.rows
        (ScheduledPaymentManager.filter_
           (λ r, kwargs r && ScheduledPaymentManager.has_status s r)
           ScheduledPaymentManager.super_get_queryset) db
  ↔ r ∈ transfer_scheduledpayment db
    ∧ ScheduledPaymentRow.status r = s ∧ kwargs r = true.
Proof.
  unfold ScheduledPaymentManager.rows, ScheduledPaymentManager.filter_,
    ScheduledPaymentManager.has_status. simpl.
  rewrite list_elem_of_filter, andb_true_iff, bool_decide_eq_true. tauto.
Qed.


(** ** [create_transfer] never lets [InsufficientBalance] out *)

(** Whatever the instance and the store, [create_transfer] does not end
    with [InsufficientBalance]: the handler turns it into the status
    FAILED. *)
Theorem create_transfer_absorbs_insufficient_balance
    (self : ScheduledPayment.t) (db : Database) :
  (ScheduledPayment.create_transfer self db).2 ≠ inl InsufficientBalance.
Proof.
  destruct (ScheduledPayment.resolve (ScheduledPayment.from_account self) db)
    as [d1 [e1|fa]] eqn:Hfa.
  { unfold ScheduledPayment.create_transfer, atomic,
      ScheduledPayment.create_transfer_body. unfold bind at 1.
    rewrite Hfa. simpl.
    destruct (ScheduledPayment.from_account self) as [id|a]; simpl in Hfa.
    - unfold Account.objects_get in Hfa.
      destruct (account_account db !! id); [done|].
      injection Hfa as _ <-. done.
    - done. }
  destruct (resolve_inr _ _ _ _ Hfa) as [-> _].
  destruct (ScheduledPayment.resolve (ScheduledPayment.to_account self) db)
    as [d2 [e2|ta]] eqn:Hta.
  { unfold ScheduledPayment.create_transfer, atomic,
      ScheduledPayment.create_transfer_body. unfold bind at 1.
    rewrite Hfa. unfold bind at 1. rewrite Hta. simpl.
    destruct (ScheduledPayment.to_account self) as [id|a]; simpl in Hta.
    - unfold Account.objects_get in Hta.
      destruct (account_account db !! id); [done|].
      injection Hta as _ <-. done.
    - done. }
  destruct (resolve_inr _ _ _ _ Hta) as [-> _].
  rewrite (create_transfer_unfold self db fa ta Hfa Hta). cbv zeta.
  destruct (Transfer.do_transfer fa ta (ScheduledPayment.amount self) db)
    as [dbt [e|tr]].
  - destruct e; try done; by case_decide.
  - by case_decide.
Qed.

(** ** [Account.update_reserved_amount] *)

(** On a stored account, [update_reserved_amount] writes the recomputed
    sum of PENDING amounts into the row and into the instance, whatever
    the row held before; only that column of that row changes.  On an
    account that is not stored the save fails and nothing changes. *)
Theorem update_reserved_amount_recomputes (self : Account.t) (db : Database) :
  (∀ row, account_account db !! Account.pk self = Some row →
     ∃ db' self',
       Account.update_reserved_amount self db = (db', inr self')
       ∧ Account.reserved_amount self'
         = Account.reserved_amount_for_scheduled_payment (Account.pk self)
             (transfer_scheduledpayment db)
       ∧ reserved_of db' (Account.pk self)
         = Some (Account.reserved_amount_for_scheduled_payment
                   (Account.pk self) (transfer_scheduledpayment db'))
       ∧ Account.balance self' = Account.balance self
       ∧ (∀ k, k ≠ Account.pk self →
               account_account db' !! k = account_account db !! k)
       ∧ (∀ k, balance_of db' k = balance_of db k)
       ∧ transfer_scheduledpayment db' = transfer_scheduledpayment db
       ∧ transfer_transfer db' = transfer_transfer db)
  ∧ (account_account db !! Account.pk self = None →
     Account.update_reserved_amount self db = (db, inl DatabaseError)).
Proof.
  unfold Account.update_reserved_amount, bind,
    Account.get_reserved_amount_for_scheduled_payment. simpl. split.
  - intros row Hrow. rewrite Hrow. eexists _, _. split; [reflexivity|].
    unfold reserved_of, balance_of. simpl.
    split; [done|]. split; [by rewrite lookup_alter_eq, Hrow|].
    split; [done|]. split; [intros k Hk; by rewrite lookup_alter_ne|].
    split; [intros k; apply balance_alter_reserved|done].
  - by intros ->.
Qed.

Lemma update_reserved_amount_recomputes_witness :
  (∃ row, account_account db_canceled !! Account.pk account1 = Some row)
  ∧ ∃ db' self',
      Account.update_reserved_amount account1 db_canceled = (db', inr self')
      ∧ Account.reserved_amount self' = 0%Z.
Proof.
  assert (Hrow : account_account db_canceled !! Account.pk account1
                 = Some (AccountRow.mk 123 1 1000 0))
    by (vm_compute; reflexivity).
  split; [by eexists|].
  destruct (proj1 (update_reserved_amount_recomputes account1 db_canceled)
              _ Hrow) as (db' & self' & Hrun & Hv & _).
  exists db', self'. split; [exact Hrun|]. rewrite Hv.
  vm_compute. reflexivity.
Defined.

(** ** [get_max_transfer_amount] on a fresh instance *)



(** ** Scheduling on a fresh or on a stale instance *)

(** A schedule that succeeds on an instance just read from the store
    never reserves more than the balance: afterwards the stored
    [reserved_amount] is the old one plus the amount and does not exceed
    the stored balance. *)
Theorem create_scheduled_transfer_fresh_no_overcommit
    (k : nat) (a to_account : Account.t) (amount : Decimal) (on_date : Z)
    (db db' : Database) (sp : ScheduledPayment.t) :
  Account.objects_get k db = (db, inr a) →
  ScheduledPayment.create_scheduled_transfer a to_account amount on_date db
    = (db', inr sp) →
  ∃ row',
    account_account db' !! k = Some row'
    ∧ AccountRow.balance row' = Account.balance a
    ∧ AccountRow.reserved_amount row'
      = (Account.reserved_amount a + amount)%Z
    ∧ (AccountRow.reserved_amount row' ≤ AccountRow.balance row')%Z.
Proof.
  unfold Account.objects_get.
  destruct (account_account db !! k) as [row|] eqn:Hrow; [|done].
  intros [= <-]. rewrite create_scheduled_transfer_unfold.
  destruct (amount <? 0)%Z; [done|].
  unfold Account.get_max_transfer_amount. simpl.
  destruct (_ <? amount)%Z eqn:Hfits; [done|].
  apply Z.ltb_ge in Hfits.
  case_decide; [|done]. cbv zeta. intros [= <- _]. simpl.
  rewrite lookup_alter_eq, Hrow. simpl. eexists. split; [done|].
  simpl. split; [done|]. split; [done|lia].
Qed.

Lemma create_scheduled_transfer_fresh_no_overcommit_witness :
  Account.objects_get 1 db0 = (db0, inr account1)
  ∧ ∃ db' sp row',
      ScheduledPayment.create_scheduled_transfer account1 account2 100 10 db0
        = (db', inr sp)
      ∧ account_account db' !! 1 = Some row'
      ∧ (AccountRow.reserved_amount row' ≤ AccountRow.balance row')%Z.
Proof.
  assert (Hget : Account.objects_get 1 db0 = (db0, inr account1))
    by reflexivity.
  split; [exact Hget|].
  pose (db' := (ScheduledPayment.create_scheduled_transfer account1 account2
                  100 10 db0).1).
  assert (Hrun : ScheduledPayment.create_scheduled_transfer account1 account2
                   100 10 db0
                 = (db', inr (ScheduledPayment.mk 1
                      (ScheduledPayment.Cached account1)
                      (ScheduledPayment.Cached account2) 100 PENDING None 10)))
    by (vm_compute; reflexivity).
  destruct (create_scheduled_transfer_fresh_no_overcommit 1 account1 account2
              100 10 db0 db' _ Hget Hrun) as (row' & Hrow & _ & _ & Hle).
  exists db'. eexists. exists row'.
  split; [exact Hrun|]. split; [exact Hrow|exact Hle].
Defined.

Lemma create_scheduled_transfer_reads_instance_witness :
  (0 ≤ 100 ≤ Account.get_max_transfer_amount account1)%Z
  ∧ is_Some (account_account db_full !! Account.pk account1)
  ∧ is_Some (account_account db_full !! Account.pk account2)
  ∧ reserved_of db_full 1 = Some 1000%Z
  ∧ balance_of db_full 1 = Some 1000%Z
  ∧ ∃ db' sp,
      ScheduledPayment.create_scheduled_transfer account1 account2 100 10
        db_full = (db', inr sp)
      ∧ reserved_of db' 1 = Some 1100%Z.
Proof.
  assert (H0 : (0 ≤ 100 ≤ Account.get_max_transfer_amount account1)%Z)
    by (vm_compute; split; discriminate).
  assert (H1 : is_Some (account_account db_full !! Account.pk account1))
    by (eexists; vm_compute; reflexivity).
  assert (H2 : is_Some (account_account db_full !! Account.pk account2))
    by (eexists; vm_compute; reflexivity).
  assert (H3 : reserved_of db_full 1 = Some 1000%Z)
    by (vm_compute; reflexivity).
  split; [exact H0|]. split; [exact H1|]. split; [exact H2|].
  split; [exact H3|]. split; [vm_compute; reflexivity|].
  destruct (create_scheduled_transfer_reads_instance account1 account2 100 10
              db_full H0 H1 H2) as (db' & sp & Hrun & Hres).
  exists db', sp. split; [exact Hrun|].
  etrans; [exact Hres|]. change (Account.pk account1) with 1.
  rewrite H3. reflexivity.
Defined.

(** ** Scheduling, looking up, cancelling *)

Lemma set_reserved_amount_inverse (d : Z) r :
  AccountRow.set_reserved_amount (λ x, x - d)%Z
    (AccountRow.set_reserved_amount (λ x, x + d)%Z r) = r.
Proof.
  destruct r as [n o b rs]. unfold AccountRow.set_reserved_amount. simpl.
  f_equal. lia.
Qed.

Lemma updated_rows_app self fields rows1 rows2 :
  ScheduledPayment.updated_rows self fields (rows1 ++ rows2)
  = ScheduledPayment.updated_rows self fields rows1
    ++ ScheduledPayment.updated_rows self fields rows2.
Proof. unfold ScheduledPayment.updated_rows. apply fmap_app. Qed.

Lemma scheduled_row_fresh db (k : nat) :
  well_formed db → scheduledpayment_seq db < k → scheduled_row db k = None.
Proof.
  intros [_ Hle] Hk. unfold scheduled_row.
  rewrite (proj2 (list_find_None _ _)); [done|].
  eapply Forall_impl; [exact Hle|]. intros r Hr. simpl in *. lia.
Qed.

Lemma scheduled_row_app_old rows new (k : nat) r :
  snd <$> list_find (λ x, ScheduledPaymentRow.pk x = k) rows = Some r →
  snd <$> list_find (λ x, ScheduledPaymentRow.pk x = k) (rows ++ new)
  = Some r.
Proof.
  intros ([i r'] & Hfind & ->)%fmap_Some.
  by rewrite (list_find_app_l _ _ _ _ _ Hfind).
Qed.

Lemma scheduled_row_app_new rows r :
  snd <$> list_find (λ x, ScheduledPaymentRow.pk x = ScheduledPaymentRow.pk r)
                    rows = None →
  snd <$> list_find (λ x, ScheduledPaymentRow.pk x = ScheduledPaymentRow.pk r)
                    (rows ++ [r]) = Some r.
Proof.
  intros Hnone. apply fmap_None in Hnone.
  rewrite list_find_app_r by done. simpl.
  by rewrite decide_True.
Qed.

(** What [create_scheduled_transfer] returns can be read back: the key of
    the instance was not in use, [objects.get] on that key finds the
    payment with the accounts, amount and date of the call, PENDING and
    without a transfer, and every payment stored before is still found
    unchanged under its key. *)
Theorem create_scheduled_transfer_lookup
    (from_account to_account : Account.t) (amount : Decimal) (on_date : Z)
    (db db' : Database) (sp : ScheduledPayment.t) :
  well_formed db →
  ScheduledPayment.create_scheduled_transfer from_account to_account amount
    on_date db = (db', inr sp) →
  scheduled_row db (ScheduledPayment.pk sp) = None
  ∧ ScheduledPayment.objects_get (ScheduledPayment.pk sp) db'
    = (db', inr (ScheduledPayment.mk (ScheduledPayment.pk sp)
                   (ScheduledPayment.Deferred (Account.pk from_account))
                   (ScheduledPayment.Deferred (Account.pk to_account))
                   amount PENDING None on_date))
  ∧ ScheduledPayment.amount sp = amount
  ∧ ScheduledPayment.status sp = PENDING
  ∧ (∀ k r, scheduled_row db k = Some r → scheduled_row db' k = Some r).
Proof.
  intros Hwf. rewrite create_scheduled_transfer_unfold.
  repeat case_match; try done. cbv zeta. intros [= <- <-]. simpl.
  assert (Hfresh : scheduled_row db (S (scheduledpayment_seq db)) = None)
    by (apply scheduled_row_fresh; [done|lia]).
  split; [done|].
  set (row := ScheduledPaymentRow.mk (S (scheduledpayment_seq db))
                (Account.pk from_account) (Account.pk to_account) amount
                PENDING None on_date).
  split.
  - pose proof (scheduled_row_app_new (transfer_scheduledpayment db) row
                  Hfresh) as Hnew.
    unfold ScheduledPayment.objects_get. simpl.
    change (S (scheduledpayment_seq db)) with (ScheduledPaymentRow.pk row).
    destruct (list_find _ (transfer_scheduledpayment db ++ [row]))
      as [[i r]|]; [|done].
    simpl in Hnew. injection Hnew as ->. done.
  - split; [done|]. split; [done|].
    intros k r Hr. unfold scheduled_row in *. simpl.
    by apply scheduled_row_app_old.
Qed.

Lemma create_scheduled_transfer_lookup_witness :
  well_formed db0
  ∧ ∃ db' sp,
      ScheduledPayment.create_scheduled_transfer account1 account2 100 10 db0
        = (db', inr sp)
      ∧ ScheduledPayment.objects_get (ScheduledPayment.pk sp) db'
        = (db', inr (ScheduledPayment.mk (ScheduledPayment.pk sp)
                       (ScheduledPayment.Deferred 1)
                       (ScheduledPayment.Deferred 2) 100 PENDING None 10)).
Proof.
  split; [apply db0_well_formed|].
  pose (db' := (ScheduledPayment.create_scheduled_transfer account1 account2
                  100 10 db0).1).
  assert (Hrun : ScheduledPayment.create_scheduled_transfer account1 account2
                   100 10 db0
                 = (db', inr (ScheduledPayment.mk 1
                      (ScheduledPayment.Cached account1)
                      (ScheduledPayment.Cached account2) 100 PENDING None 10)))
    by (vm_compute; reflexivity).
  exists db'. eexists. split; [exact Hrun|].
  exact (proj1 (proj2 (create_scheduled_transfer_lookup account1 account2
                         100 10 db0 db' _ db0_well_formed Hrun))).
Defined.

(** Scheduling and then cancelling the instance returned restores the
    accounts table exactly (reserved_amount is back to its value before
    the schedule, balances never moved), records no transfer, and leaves
    the payment in the table as CANCELED. *)
Theorem schedule_cancel_round_trip
    (from_account to_account : Account.t) (amount : Decimal) (on_date : Z)
    (db db1 : Database) (sp : ScheduledPayment.t) :
  well_formed db →
  ScheduledPayment.create_scheduled_transfer from_account to_account amount
    on_date db = (db1, inr sp) →
  ∃ db2 sp',
    ScheduledPayment.cancel sp db1 = (db2, inr sp')
    ∧ ScheduledPayment.status sp' = CANCELED
    ∧ account_account db2 = account_account db
    ∧ transfer_transfer db2 = transfer_transfer db
    ∧ transfer_scheduledpayment db2
      = transfer_scheduledpayment db ++
        [ScheduledPaymentRow.mk (ScheduledPayment.pk sp)
           (Account.pk from_account) (Account.pk to_account) amount
           CANCELED None on_date].
Proof.
  intros Hwf. rewrite create_scheduled_transfer_unfold.
  repeat case_match; try done. cbv zeta. intros [= <- <-].
  set (db1 := mkDatabase _ _ _ _ _).
  set (sp := ScheduledPayment.mk _ _ _ _ _ _ _).
  pose proof (cancel_unfold sp db1 from_account eq_refl) as Hc.
  cbv zeta in Hc. rewrite decide_True in Hc.
  2:{ apply Exists_exists.
      exists (ScheduledPaymentRow.mk (S (scheduledpayment_seq db))
                (Account.pk from_account) (Account.pk to_account) amount
                PENDING None on_date).
      split; [|reflexivity].
      unfold db1. simpl. apply elem_of_app. right.
      apply list_elem_of_singleton. reflexivity. }
  eexists _, _. split; [exact Hc|]. split; [done|].
  split; [|split; [done|]].
  - unfold settled, db1. simpl. apply map_eq. intros k.
    destruct (decide (Account.pk from_account = k)) as [<-|Hne];
      [|by rewrite !lookup_alter_ne].
    rewrite !lookup_alter_eq.
    destruct (account_account db !! Account.pk from_account) as [r|];
      [|done].
    change (Some (AccountRow.set_reserved_amount (λ x, x - amount)%Z
                    (AccountRow.set_reserved_amount (λ x, x + amount)%Z r))
            = Some r).
    by rewrite set_reserved_amount_inverse.
  - rewrite settled_rows, updated_rows_nil. unfold db1. simpl.
    rewrite updated_rows_app, updated_rows_absent.
    + unfold ScheduledPayment.updated_rows. simpl. by rewrite decide_True.
    + destruct Hwf as [_ Hle]. eapply Forall_impl; [exact Hle|].
      intros r Hr. simpl in *. lia.
Qed.

Lemma schedule_cancel_round_trip_witness :
  well_formed db0
  ∧ ∃ db1 sp db2 sp',
      ScheduledPayment.create_scheduled_transfer account1 account2 100 10 db0
        = (db1, inr sp)
      ∧ ScheduledPayment.cancel sp db1 = (db2, inr sp')
      ∧ account_account db2 = account_account db0.
Proof.
  split; [apply db0_well_formed|].
  pose (db1 := (ScheduledPayment.create_scheduled_transfer account1 account2
                  100 10 db0).1).
  assert (Hrun : ScheduledPayment.create_scheduled_transfer account1 account2
                   100 10 db0
                 = (db1, inr (ScheduledPayment.mk 1
                      (ScheduledPayment.Cached account1)
                      (ScheduledPayment.Cached account2) 100 PENDING None 10)))
    by (vm_compute; reflexivity).
  destruct (schedule_cancel_round_trip account1 account2 100 10 db0 db1 _
              db0_well_formed Hrun) as (db2 & sp' & Hc & _ & Hacc & _).
  exists db1. eexists. exists db2, sp'.
  split; [exact Hrun|]. split; [exact Hc|exact Hacc].
Defined.

(** ** Conservation across the lifecycle *)

Lemma conserves_refl db : conserves db db.
Proof. by repeat split. Qed.

Lemma conserves_trans db1 db2 db3 :
  conserves db1 db2 → conserves db2 db3 → conserves db1 db3.
Proof.
  intros (Hs1 & Ht1 & Hp1) (Hs2 & Ht2 & Hp2). split_and!.
  - intros k. by rewrite Hs2.
  - intros keys Hnd Hcover. rewrite Ht2; [by apply Ht1|done|].
    intros k Hk. apply Hcover. by apply Hs1.
  - by etrans.
Qed.

Lemma total_balance_ext keys db db' :
  (∀ k, balance_of db' k = balance_of db k) →
  total_balance keys db' = total_balance keys db.
Proof.
  intros Hb. unfold total_balance. f_equal.
  apply list_fmap_ext. intros i k _. by rewrite Hb.
Qed.

Lemma conserves_balances db db' :
  (∀ k, is_Some (account_account db' !! k)
        ↔ is_Some (account_account db !! k)) →
  (∀ k, balance_of db' k = balance_of db k) →
  transfer_transfer db `prefix_of` transfer_transfer db' →
  conserves db db'.
Proof.
  intros Hs Hb Hp. split; [done|]. split; [|done].
  intros keys _ _. by apply total_balance_ext.
Qed.

Lemma do_transfer_conserves from_account to_account amount db dbt tr :
  Transfer.do_transfer from_account to_account amount db = (dbt, inr tr) →
  conserves db dbt.
Proof.
  intros Hrun. pose proof Hrun as Hrun'.
  apply do_transfer_inr in Hrun' as (_ & _ & Hf & Ht & _ & ->).
  split_and!.
  - intros k. simpl. by rewrite !is_Some_alter.
  - intros keys Hnd Hcover.
    eapply (do_transfer_total keys); [done| | |exact Hrun]; by apply Hcover.
  - simpl. by apply prefix_app_r.
Qed.

Lemma settled_conserves dbt fa s2 s3 link :
  conserves dbt (settled dbt fa s2 s3 link).
Proof.
  apply conserves_balances.
  - intros k. unfold settled. simpl. by rewrite is_Some_alter.
  - intros k. apply settled_balance.
  - done.
Qed.

Lemma create_transfer_conserves self db :
  conserves db (ScheduledPayment.create_transfer self db).1.
Proof.
  destruct (ScheduledPayment.create_transfer self db) as [db' [e|self']]
    eqn:Hrun.
  { apply atomic_inl in Hrun as ->. apply conserves_refl. }
  destruct (create_transfer_inr_resolve _ _ _ _ Hrun)
    as (fa & ta & Hfa & Hta).
  rewrite (create_transfer_unfold self db fa ta Hfa Hta) in Hrun.
  cbv zeta in Hrun. simpl.
  destruct (Transfer.do_transfer fa ta (ScheduledPayment.amount self) db)
    as [dbt [e|tr]] eqn:Hdt.
  - destruct e; try done. case_decide; [|done].
    injection Hrun as <- _. apply settled_conserves.
  - case_decide; [|done]. injection Hrun as <- _.
    eapply conserves_trans; [by eapply do_transfer_conserves|].
    apply settled_conserves.
Qed.

Lemma cancel_conserves self db :
  conserves db (ScheduledPayment.cancel self db).1.
Proof.
  destruct (ScheduledPayment.cancel self db) as [db' [e|self']] eqn:Hrun.
  { apply atomic_inl in Hrun as ->. apply conserves_refl. }
  destruct (cancel_inr_resolve _ _ _ _ Hrun) as (fa & Hfa).
  rewrite (cancel_unfold self db fa Hfa) in Hrun. cbv zeta in Hrun.
  case_decide; [|done]. injection Hrun as <- _. apply settled_conserves.
Qed.

Lemma create_scheduled_transfer_conserves from_account to_account amount
    on_date db :
  conserves db
    (ScheduledPayment.create_scheduled_transfer from_account to_account
       amount on_date db).1.
Proof.
  rewrite create_scheduled_transfer_unfold.
  repeat case_match; try apply conserves_refl. cbv zeta. simpl.
  apply conserves_balances; simpl.
  - intros k. by rewrite is_Some_alter.
  - intros k. unfold balance_of. simpl. apply balance_alter_reserved.
  - done.
Qed.

Lemma objects_get_same_store (k : nat) db :
  (ScheduledPayment.objects_get k db).1 = db.
Proof.
  unfold ScheduledPayment.objects_get.
  by destruct (list_find _ _) as [[i r]|].
Qed.

Lemma run_operation_conserves op db :
  conserves db (run_operation op db).1.
Proof.
  destruct op as [f t a d|k|k]; simpl; unfold bind.
  - pose proof (create_scheduled_transfer_conserves f t a d db) as Hc.
    by destruct (ScheduledPayment.create_scheduled_transfer f t a d db)
      as [db1 [e|sp]].
  - pose proof (objects_get_same_store k db) as Hget.
    destruct (ScheduledPayment.objects_get k db) as [d0 [e|sp]];
      simpl in Hget; subst d0; [apply conserves_refl|].
    pose proof (create_transfer_conserves sp db) as Hc.
    by destruct (ScheduledPayment.create_transfer sp db) as [db1 [e|sp']].
  - pose proof (objects_get_same_store k db) as Hget.
    destruct (ScheduledPayment.objects_get k db) as [d0 [e|sp]];
      simpl in Hget; subst d0; [apply conserves_refl|].
    pose proof (cancel_conserves sp db) as Hc.
    by destruct (ScheduledPayment.cancel sp db) as [db1 [e|sp']].
Qed.

Lemma run_operations_conserves ops db :
  conserves db (run_operations ops db).1.
Proof.
  revert db. induction ops as [|op ops IH]; intros db.
  - apply conserves_refl.
  - unfold run_operations. simpl. unfold bind.
    pose proof (run_operation_conserves op db) as Hc.
    destruct (run_operation op db) as [db1 [e|[]]]; [done|].
    eapply conserves_trans; [exact Hc|]. apply IH.
Qed.

(** Whatever sequence of schedule, settle and cancel operations is run,
    to its end or up to the first exception, on whatever payments and in
    whatever status: no account appears or disappears, the balances of
    all stored accounts add up to what they added up to before, and the
    transfers recorded before are all still there, in place, followed by
    the new ones. *)
Theorem lifecycle_conserves_money (ops : list operation) (db : Database) :
  let db' := (run_operations ops db).1 in
  dom (account_account db') = dom (account_account db)
  ∧ total_balance (all_accounts db) db' = total_balance (all_accounts db) db
  ∧ transfer_transfer db `prefix_of` transfer_transfer db'.
Proof.
  cbv zeta. destruct (run_operations_conserves ops db) as (Hs & Ht & Hp).
  split; [apply set_eq; intros k; rewrite !elem_of_dom; apply Hs|].
  split; [|done]. unfold all_accounts. apply Ht.
  - apply NoDup_elements.
  - intros k Hk. apply elem_of_elements. by apply elem_of_dom.
Qed.

(** ** The scheduler tick keeps the invariant and settles what is due *)

Lemma NoDup_pk_filter (P : ScheduledPaymentRow.t → Prop)
    `{∀ r, Decision (P r)} rows :
  NoDup (ScheduledPaymentRow.pk <$> rows) →
  NoDup (ScheduledPaymentRow.pk <$> filter P rows).
Proof.
  induction rows as [|r rows IH]; [done|].
  rewrite fmap_cons, NoDup_cons. intros [Hr Hnd].
  rewrite filter_cons. case_decide; [|by apply IH].
  rewrite fmap_cons, NoDup_cons. split; [|by apply IH].
  intros (r' & Hpk & Hin)%list_elem_of_fmap.
  apply list_elem_of_filter in Hin as [_ Hin].
  apply Hr. rewrite Hpk. by apply list_elem_of_fmap_2.
Qed.

Lemma scheduled_row_of_elem rows r :
  NoDup (ScheduledPaymentRow.pk <$> rows) → r ∈ rows →
  snd <$> list_find (λ x, ScheduledPaymentRow.pk x = ScheduledPaymentRow.pk r)
                    rows = Some r.
Proof.
  induction rows as [|x rows IH]; [by rewrite elem_of_nil|].
  rewrite fmap_cons, NoDup_cons, elem_of_cons. intros [Hx Hnd] Hin.
  cbn [list_find]. case_decide as Hpk.
  - destruct Hin as [->|Hin]; [done|].
    destruct Hx. rewrite Hpk. by apply list_elem_of_fmap_2.
  - destruct Hin as [->|Hin]; [done|].
    rewrite <- option_fmap_compose. by apply IH.
Qed.

Lemma elem_of_updated_rows self fields rows r :
  r ∈ ScheduledPayment.updated_rows self fields rows →
  (r ∈ rows ∧ ScheduledPaymentRow.pk r ≠ ScheduledPayment.pk self)
  ∨ (∃ r0, r0 ∈ rows
           ∧ ScheduledPaymentRow.pk r0 = ScheduledPayment.pk self
           ∧ r = foldr (ScheduledPayment.write_field self) r0 fields).
Proof.
  unfold ScheduledPayment.updated_rows.
  intros (r0 & -> & Hin)%list_elem_of_fmap. case_decide; eauto.
Qed.

Lemma elem_of_updated_rows_other self fields rows r :
  r ∈ rows → ScheduledPaymentRow.pk r ≠ ScheduledPayment.pk self →
  r ∈ ScheduledPayment.updated_rows self fields rows.
Proof.
  intros Hin Hne. unfold ScheduledPayment.updated_rows.
  apply list_elem_of_fmap. exists r. by rewrite decide_False.
Qed.

(** The rows of a store left by a settlement or a cancellation: the row
    of the payment carries the final status, the others are those of
    before. *)
Lemma settled_rows_cases dbt fa s2 s3 link r :
  ScheduledPayment.pk s2 = ScheduledPayment.pk s3 →
  r ∈ transfer_scheduledpayment (settled dbt fa s2 s3 link) →
  (r ∈ transfer_scheduledpayment dbt
   ∧ ScheduledPaymentRow.pk r ≠ ScheduledPayment.pk s3)
  ∨ ScheduledPaymentRow.status r = ScheduledPayment.status s3.
Proof.
  intros Hpk. rewrite settled_rows.
  intros [[Hin Hne]|(r0 & _ & _ & ->)]%elem_of_updated_rows; [|by right].
  apply elem_of_updated_rows in Hin as [[Hin _]|(r0 & _ & Hpk0 & ->)].
  - by left.
  - rewrite write_fields_pk in Hne. congruence.
Qed.

Lemma settled_rows_other dbt fa s2 s3 link r :
  ScheduledPayment.pk s2 = ScheduledPayment.pk s3 →
  r ∈ transfer_scheduledpayment dbt →
  ScheduledPaymentRow.pk r ≠ ScheduledPayment.pk s3 →
  r ∈ transfer_scheduledpayment (settled dbt fa s2 s3 link).
Proof.
  intros Hpk Hin Hne. rewrite settled_rows.
  apply elem_of_updated_rows_other; [|done].
  apply elem_of_updated_rows_other; [done|congruence].
Qed.

(** A successful settlement leaves every other row in place and gives
    the row of the payment a status other than PENDING. *)
Lemma create_transfer_rows self db db' self' :
  ScheduledPayment.create_transfer self db = (db', inr self') →
  (∀ r, r ∈ transfer_scheduledpayment db →
        ScheduledPaymentRow.pk r ≠ ScheduledPayment.pk self →
        r ∈ transfer_scheduledpayment db')
  ∧ (∀ r, r ∈ transfer_scheduledpayment db' →
          (r ∈ transfer_scheduledpayment db
           ∧ ScheduledPaymentRow.pk r ≠ ScheduledPayment.pk self)
          ∨ ScheduledPaymentRow.status r ≠ PENDING).
Proof.
  intros Hrun.
  destruct (create_transfer_inr_resolve _ _ _ _ Hrun)
    as (fa & ta & Hfa & Hta).
  rewrite (create_transfer_unfold self db fa ta Hfa Hta) in Hrun.
  cbv zeta in Hrun.
  destruct (Transfer.do_transfer fa ta (ScheduledPayment.amount self) db)
    as [dbt [e|tr]] eqn:Hdt.
  - destruct e; try done. case_decide; [|done].
    injection Hrun as <- _. split.
    + intros r Hin Hne. by apply settled_rows_other.
    + intros r Hin.
      apply settled_rows_cases in Hin as [?|Hst]; [by left| |done].
      right. by rewrite Hst.
  - case_decide; [|done]. injection Hrun as <- _.
    destruct (do_transfer_same_reservations _ _ _ _ _ _ Hdt) as [Hrows _].
    split.
    + intros r Hin Hne. apply settled_rows_other; [done| |done].
      by rewrite Hrows.
    + intros r Hin.
      apply settled_rows_cases in Hin as [[Hin ?]|Hst]; [| |done].
      * left. by rewrite <- Hrows.
      * right. by rewrite Hst.
Qed.

Lemma for_each_cons {A} (f : A → M unit) x l db :
  for_each f (x :: l) db
  = match f x db with
    | (db1, inr _) => for_each f l db1
    | (db1, inl e) => (db1, inl e)
    end.
Proof. reflexivity. Qed.

Lemma settle_item_unfold x db :
  settle_item x db
  = match ScheduledPayment.create_transfer x db with
    | (db1, inr _) => (db1, inr tt)
    | (db1, inl e) => (db1, inl e)
    end.
Proof. reflexivity. Qed.

(** The loop of the tick over rows that are stored and PENDING, with
    distinct keys: in any store it stops in, the invariant holds; when it
    runs to its end, every row that is still PENDING was not in the
    list. *)
Lemma settle_loop_invariant db0 rows db :
  well_formed db → reserved_consistent db →
  NoDup (ScheduledPaymentRow.pk <$> rows) →
  Forall (λ r, r ∈ transfer_scheduledpayment db
               ∧ ScheduledPaymentRow.status r = PENDING) rows →
  let res := for_each settle_item (ScheduledPayment.of_row db0 <$> rows) db in
  well_formed res.1 ∧ reserved_consistent res.1
  ∧ (res.2 = inr tt →
     ∀ r, r ∈ transfer_scheduledpayment res.1 →
          ScheduledPaymentRow.status r = PENDING →
          r ∈ transfer_scheduledpayment db ∧ r ∉ rows).
Proof.
  cbv zeta. revert db.
  induction rows as [|r0 rows IH]; intros db Hwf Hc Hnd Hall.
  - simpl. split; [done|]. split; [done|]. intros _ r Hin _.
    split; [done|]. apply not_elem_of_nil.
  - rewrite fmap_cons in *. apply NoDup_cons in Hnd as [Hr0 Hnd].
    apply Forall_cons in Hall as [[Hin0 Hpending0] Hall].
    rewrite for_each_cons, settle_item_unfold.
    destruct (ScheduledPayment.create_transfer
                (ScheduledPayment.of_row db0 r0) db)
      as [db1 [e|self']] eqn:Hstep.
    { apply atomic_inl in Hstep as ->. simpl. by split. }
    assert (Hstored : stored_instance db (ScheduledPayment.of_row db0 r0) r0).
    { split; [|done]. unfold scheduled_row. simpl.
      apply scheduled_row_of_elem; [by destruct Hwf|done]. }
    destruct (create_transfer_invariant _ r0 db db1 self' Hwf Hc Hstored
                Hpending0 Hstep) as [Hwf1 Hc1].
    destruct (create_transfer_rows _ _ _ _ Hstep) as [Hkeep Hcases].
    simpl in Hkeep, Hcases.
    assert (Hall1 : Forall (λ r, r ∈ transfer_scheduledpayment db1
                                 ∧ ScheduledPaymentRow.status r = PENDING)
                           rows).
    { apply Forall_forall. intros r Hr.
      rewrite Forall_forall in Hall. destruct (Hall r Hr) as [Hin Hp].
      split; [|done]. apply Hkeep; [done|].
      intros Hpk. apply Hr0. rewrite <- Hpk. by apply list_elem_of_fmap_2. }
    destruct (IH db1 Hwf1 Hc1 Hnd Hall1) as (Hwf' & Hc' & Hleft).
    split; [done|]. split; [done|].
    intros Hok r Hin Hp. destruct (Hleft Hok r Hin Hp) as [Hin1 Hnotin].
    destruct (Hcases r Hin1) as [[Hin_db Hne]|Hnp]; [|done].
    split; [done|]. rewrite not_elem_of_cons. split; [|done].
    intros ->. done.
Qed.

(** One tick of [run_transfers_by_scheduled_payments] on a store where
    the invariant holds: in the store it leaves, whether it ran to its
    end or stopped at an exception, every account's reserved_amount is
    again the sum of its PENDING payments and money is conserved; and
    when it ran to its end, no payment is left that is PENDING and due
    at [now]. *)
Theorem tick_settles_due_payments (now : Z) (db : Database) :
  well_formed db → reserved_consistent db →
  let res := run_transfers_by_scheduled_payments now db in
  well_formed res.1 ∧ reserved_consistent res.1
  ∧ (res.2 = inr tt →
     ∀ r, r ∈ transfer_scheduledpayment res.1 →
          (ScheduledPaymentRow.on_date r ≤ now)%Z →
          ScheduledPaymentRow.status r ≠ PENDING).
Proof.
  intros Hwf Hc. cbv zeta. rewrite run_transfers_unfold.
  set (rows := ScheduledPaymentManager.rows (due_pending now) db).
  assert (Hrows : ∀ r, r ∈ rows
            ↔ r ∈ transfer_scheduledpayment db
              ∧ ScheduledPaymentRow.status r = PENDING
              ∧ bool_decide (ScheduledPaymentRow.on_date r ≤ now)%Z = true).
  { intros r. apply (elem_of_status_rows PENDING). }
  destruct (settle_loop_invariant db rows db Hwf Hc) as (Hwf' & Hc' & Hleft).
  { apply NoDup_pk_filter. by destruct Hwf. }
  { apply Forall_forall. intros r Hr. apply Hrows in Hr. tauto. }
  split; [done|]. split; [done|].
  intros Hok r Hin Hdue Hp.
  destruct (Hleft Hok r Hin Hp) as [Hin_db Hnotin].
  apply Hnotin, Hrows. split; [done|]. split; [done|].
  by apply bool_decide_eq_true.
Qed.

Lemma tick_settles_due_payments_witness :
  well_formed db_scheduled ∧ reserved_consistent db_scheduled
  ∧ ∃ db',
      run_transfers_by_scheduled_payments 10 db_scheduled = (db', inr tt)
      ∧ reserved_consistent db'
      ∧ ∀ r, r ∈ transfer_scheduledpayment db' →
             (ScheduledPaymentRow.on_date r ≤ 10)%Z →
             ScheduledPaymentRow.status r ≠ PENDING.
Proof.
  assert (Hwf : well_formed db_scheduled).
  { split.
    - apply (NoDup_singleton 1).
    - apply Forall_singleton. vm_compute. constructor. }
  assert (Hc : reserved_consistent db_scheduled).
  { intros k r Hk. change (account_account db_scheduled)
      with (account_account
              (mkDatabase (<[1 := AccountRow.mk 123 1 1000 100]>
                             (<[2 := account2_row]> ∅))
                          [] [payment1_row] 0 1)) in Hk.
    simpl in Hk.
    apply lookup_insert_Some in Hk as [[<- <-]|[_ Hk]]; [reflexivity|].
    apply lookup_insert_Some in Hk as [[<- <-]|[_ Hk]]; [reflexivity|].
    by rewrite lookup_empty in Hk. }
  split; [exact Hwf|]. split; [exact Hc|].
  pose (db' := (run_transfers_by_scheduled_payments 10 db_scheduled).1).
  assert (Hrun : run_transfers_by_scheduled_payments 10 db_scheduled
                 = (db', inr tt)) by (vm_compute; reflexivity).
  exists db'. split; [exact Hrun|].
  destruct (tick_settles_due_payments 10 db_scheduled Hwf Hc)
    as (_ & Hc' & Hleft).
  rewrite Hrun in Hc', Hleft. split; [exact Hc'|].
  exact (Hleft eq_refl).
Defined.

(** ** Scheduling, then settling *)

(** Settling the instance [create_scheduled_transfer] returned, when the
    instance of the from-account it was given held a non-negative
    [reserved_amount]: the payment ends DONE with its transfer linked,
    the stored reserved_amount of the from-account is back to its value
    before the schedule, and the amount has moved from the balance of the
    from-account to that of the to-account. *)
Theorem schedule_then_settle
    (from_account to_account : Account.t) (amount : Decimal) (on_date : Z)
    (db db1 : Database) (sp : ScheduledPayment.t) :
  well_formed db →
  (0 ≤ Account.reserved_amount from_account)%Z →
  Account.pk from_account ≠ Account.pk to_account →
  ScheduledPayment.create_scheduled_transfer from_account to_account amount
    on_date db = (db1, inr sp) →
  ∃ db2 sp' tr,
    ScheduledPayment.create_transfer sp db1 = (db2, inr sp')
    ∧ ScheduledPayment.status sp' = DONE
    ∧ ScheduledPayment.transfer sp' = Some tr
    ∧ tr = TransferRow.mk (S (transfer_seq db)) (Account.pk from_account)
             (Account.pk to_account) amount
    ∧ transfer_transfer db2 = transfer_transfer db ++ [tr]
    ∧ reserved_of db2 (Account.pk from_account)
      = reserved_of db (Account.pk from_account)
    ∧ balance_of db2 (Account.pk from_account)
      = (λ b, b - amount)%Z <$> balance_of db (Account.pk from_account)
    ∧ balance_of db2 (Account.pk to_account)
      = (λ b, b + amount)%Z <$> balance_of db (Account.pk to_account)
    ∧ scheduled_row db2 (ScheduledPayment.pk sp)
      = Some (ScheduledPaymentRow.mk (ScheduledPayment.pk sp)
                (Account.pk from_account) (Account.pk to_account) amount
                DONE (Some (TransferRow.pk tr)) on_date).
Proof.
  intros Hwf Hres Hne. rewrite create_scheduled_transfer_unfold.
  destruct (amount <? 0)%Z eqn:Hneg; [done|].
  destruct (_ <? amount)%Z eqn:Hfits; [done|].
  case_decide as Hfk; [|done]. cbv zeta. intros [= <- <-].
  set (row := ScheduledPaymentRow.mk (S (scheduledpayment_seq db))
                (Account.pk from_account) (Account.pk to_account) amount
                PENDING None on_date).
  set (db1 := mkDatabase _ _ _ _ _).
  set (sp := ScheduledPayment.mk _ _ _ _ _ _ _).
  apply Z.ltb_ge in Hfits. unfold Account.get_max_transfer_amount in Hfits.
  pose proof (create_transfer_unfold sp db1 from_account to_account
                eq_refl eq_refl) as Hct.
  cbv zeta in Hct. rewrite do_transfer_unfold in Hct.
  change (ScheduledPayment.amount sp) with amount in Hct.
  rewrite Hneg in Hct.
  assert (Hbal : (Account.balance from_account <? amount)%Z = false)
    by (apply Z.ltb_ge; lia).
  rewrite Hbal in Hct.
  rewrite decide_True in Hct
    by (unfold db1; simpl; by rewrite !is_Some_alter).
  cbv beta iota zeta in Hct.
  revert Hct. case_decide as Hex; intros Hct.
  2:{ destruct Hex. apply Exists_exists. exists row. split; [|reflexivity].
      simpl. apply elem_of_app. right. by apply list_elem_of_singleton. }
  destruct Hfk as [[rf Hrf] [rt Hrt]].
  eexists _, _, _. split; [exact Hct|].
  split; [done|]. split; [done|]. split; [done|]. split; [done|].
  split.
  { rewrite settled_reserved. unfold reserved_of. simpl.
    rewrite !reserved_alter_balance, lookup_alter_eq, Hrf. simpl.
    rewrite decide_True by done. f_equal; lia. }
  split.
  { rewrite settled_balance. unfold balance_of. simpl.
    rewrite lookup_alter_ne by done. rewrite !lookup_alter_eq, Hrf. done. }
  split.
  { rewrite settled_balance. unfold balance_of. simpl.
    rewrite lookup_alter_eq. rewrite !lookup_alter_ne by done.
    rewrite Hrt. done. }
  etrans.
  { apply (settled_row _ from_account
             (ScheduledPayment.set_transfer (Some _)
                (ScheduledPayment.set_to_account to_account
                   (ScheduledPayment.set_from_account from_account sp)))
             (ScheduledPayment.set_status DONE
                (ScheduledPayment.set_transfer (Some _)
                   (ScheduledPayment.set_to_account to_account
                      (ScheduledPayment.set_from_account from_account sp))))
             [ScheduledPayment.f_transfer] row eq_refl).
    unfold scheduled_row. simpl.
    change (S (scheduledpayment_seq db)) with (ScheduledPaymentRow.pk row).
    apply scheduled_row_app_new.
    apply (scheduled_row_fresh db); [done|simpl; lia]. }
  done.
Qed.

Lemma schedule_then_settle_witness :
  well_formed db0
  ∧ (0 ≤ Account.reserved_amount account1)%Z
  ∧ Account.pk account1 ≠ Account.pk account2
  ∧ ∃ db1 sp db2 sp',
      ScheduledPayment.create_scheduled_transfer account1 account2 100 10 db0
        = (db1, inr sp)
      ∧ ScheduledPayment.create_transfer sp db1 = (db2, inr sp')
      ∧ ScheduledPayment.status sp' = DONE
      ∧ reserved_of db2 1 = Some 0%Z
      ∧ balance_of db2 1 = Some 900%Z
      ∧ balance_of db2 2 = Some 1100%Z.
Proof.
  assert (H1 : (0 ≤ Account.reserved_amount account1)%Z) by (simpl; lia).
  assert (H2 : Account.pk account1 ≠ Account.pk account2)
    by (simpl; lia).
  split; [apply db0_well_formed|]. split; [exact H1|]. split; [exact H2|].
  pose (db1 := (ScheduledPayment.create_scheduled_transfer account1 account2
                  100 10 db0).1).
  assert (Hrun : ScheduledPayment.create_scheduled_transfer account1 account2
                   100 10 db0
                 = (db1, inr (ScheduledPayment.mk 1
                      (ScheduledPayment.Cached account1)
                      (ScheduledPayment.Cached account2) 100 PENDING None 10)))
    by (vm_compute; reflexivity).
  destruct (schedule_then_settle account1 account2 100 10 db0 db1 _
              db0_well_formed H1 H2 Hrun)
    as (db2 & sp' & tr & Hs & Hst & _ & _ & _ & Hres & Hbf & Hbt & _).
  exists db1. eexists. exists db2, sp'.
  split; [exact Hrun|]. split; [exact Hs|]. split; [exact Hst|].
  split; [exact Hres|]. split; [exact Hbf|exact Hbt].
Defined.
